(** * citizen-service: alert controller and upload service

    A shallow embedding of [controllers/alert.controller.js] and of the
    upload service (class [UploadService]) it calls, with the properties of
    the design document proved about them.

    - JavaScript values are the inductive [jsval]; numbers are IEEE-754
      binary64 floats, which is what a JavaScript Number is.
    - The file system is a finite map from normalised POSIX paths to nodes
      (regular file with its size, or directory).
    - Asynchronous functions are state-passing computations whose outcome is
      a returned value, a thrown error, or a promise that never settles.
    - The image and video tools (sharp, ffmpeg), the built-ins [parseFloat]
      and [parseInt], [__dirname], the environment and the alert service
      (whose module is not part of the sources at hand) are interfaces. *)

From Stdlib Require Import Floats String Ascii.
From stdpp Require Import gmap strings list pretty.

Set Default Proof Using "Type".
Set Warnings "-register-all,-inexact-float".

(** ** JavaScript values *)

Inductive jsval : Type :=
| JUndefined
| JNull
| JBool (b : bool)
| JNum (n : float)
| JStr (s : string)
| JArr (items : list jsval)
| JObj (fields : list (string * jsval)).

(** ToBoolean: what [!v], [v && ...] and [v ? a : b] test. *)
Definition truthy (v : jsval) : bool :=
  match v with
  | JUndefined | JNull => false
  | JBool b => b
  | JNum n => negb (PrimFloat.eqb n 0 || PrimFloat.is_nan n)
  | JStr s => negb (String.eqb s "")
  | JArr _ | JObj _ => true
  end.

(** [Array.isArray(v)]. *)
Definition isArray (v : jsval) : bool :=
  match v with JArr _ => true | _ => false end.

(** [v.length] where it is a non-negative integer: arrays and strings. On
    anything else the property reads [undefined] (the controller never reads
    it on [undefined] or [null], which [!v] has excluded). *)
Definition js_length (v : jsval) : option nat :=
  match v with
  | JArr l => Some (length l)
  | JStr s => Some (String.length s)
  | _ => None
  end.

(** [v.length !== n] *)
Definition length_differs (v : jsval) (n : nat) : bool :=
  match js_length v with Some k => negb (k =? n) | None => true end.

(** [v.length > 0]; [undefined > 0] is false. *)
Definition length_positive (v : jsval) : bool :=
  match js_length v with Some k => 0 <? k | None => false end.

(** Property read [o.k] on an object used as a map; an absent property
    reads [undefined]. *)
Definition prop (o : gmap string jsval) (k : string) : jsval :=
  default JUndefined (o !! k).

(** [s || d] on strings: the empty string is falsy. *)
Definition str_or (s d : string) : string :=
  if String.eqb s "" then d else s.

(** ** Strings and POSIX paths *)

(** [s.startsWith(p)] *)
Definition startsWith (s p : string) : bool := String.prefix p s.

(** [s.includes(t)] *)
Fixpoint includes (s t : string) : bool :=
  String.prefix t s ||
  match s with
  | EmptyString => false
  | String _ s' => includes s' t
  end.

Definition is_slash (c : ascii) : bool := Ascii.eqb c "/"%char.

Fixpoint skip_slashes (l : list ascii) : list ascii :=
  match l with
  | c :: l' => if is_slash c then skip_slashes l' else l
  | [] => []
  end.

Fixpoint until_slash (l : list ascii) : list ascii :=
  match l with
  | c :: l' => if is_slash c then [] else c :: until_slash l'
  | [] => []
  end.

(** [path.basename(p)] (POSIX): scanning from the end, trailing separators
    are skipped and the component runs back to the previous separator. *)
Definition basename (p : string) : string :=
  string_of_list_ascii
    (rev (until_slash (skip_slashes (rev (list_ascii_of_string p))))).

(** Splitting at ["/"]. *)
Fixpoint split_slash (s : string) : list string :=
  match s with
  | EmptyString => [EmptyString]
  | String c s' =>
      if is_slash c then EmptyString :: split_slash s'
      else match split_slash s' with
           | seg :: segs => String c seg :: segs
           | [] => [String c EmptyString]
           end
  end.

(** [normalizeString]: the stack of kept segments, innermost first. *)
Fixpoint normalize_segments (allowAboveRoot : bool) (segs : list string)
    (stack : list string) : list string :=
  match segs with
  | [] => stack
  | seg :: rest =>
      if String.eqb seg "" || String.eqb seg "." then
        normalize_segments allowAboveRoot rest stack
      else if String.eqb seg ".." then
        match stack with
        | top :: below =>
            if String.eqb top ".." then
              normalize_segments allowAboveRoot rest (seg :: stack)
            else normalize_segments allowAboveRoot rest below
        | [] =>
            if allowAboveRoot then
              normalize_segments allowAboveRoot rest [seg]
            else normalize_segments allowAboveRoot rest []
        end
      else normalize_segments allowAboveRoot rest (seg :: stack)
  end.

Fixpoint join_with_slash (segs : list string) : string :=
  match segs with
  | [] => ""
  | [seg] => seg
  | seg :: rest => seg +:+ "/" +:+ join_with_slash rest
  end.

Definition ends_with_slash (p : string) : bool :=
  match rev (list_ascii_of_string p) with
  | c :: _ => is_slash c
  | [] => false
  end.

(** [path.normalize(p)] (POSIX). *)
Definition normalize (p : string) : string :=
  match p with
  | EmptyString => "."
  | String c _ =>
      let isAbsolute := is_slash c in
      let trailingSeparator := ends_with_slash p in
      let body :=
        join_with_slash
          (rev (normalize_segments (negb isAbsolute) (split_slash p) [])) in
      if String.eqb body "" then
        if isAbsolute then "/" else if trailingSeparator then "./" else "."
      else
        let body := if trailingSeparator then body +:+ "/" else body in
        if isAbsolute then "/" +:+ body else body
  end.

(** [path.join(...args)] (POSIX): the non-empty arguments joined by ["/"],
    then normalised. *)
Definition path_join (args : list string) : string :=
  match filter (fun a => a ≠ EmptyString) args with
  | [] => "."
  | parts => normalize (join_with_slash parts)
  end.

(** ** Outcomes of asynchronous functions *)

Record JsError : Type := mkError { message : string }.

Inductive outcome (A : Type) : Type :=
| Returned (a : A)
| Thrown (e : JsError)
| Pending.
Arguments Returned {A} a.
Arguments Thrown {A} e.
Arguments Pending {A}.

(** A computation over a state [St]: the state after it, and how it ended.
    [Pending] is a promise that never settles (an exception thrown inside an
    event callback settles nothing). *)
Definition M (St A : Type) : Type := St → outcome A * St.

Definition ret {St A} (a : A) : M St A := fun s => (Returned a, s).

Definition throw {St A} (e : JsError) : M St A := fun s => (Thrown e, s).

Definition bind {St A B} (m : M St A) (k : A → M St B) : M St B :=
  fun s =>
    match m s with
    | (Returned a, s') => k a s'
    | (Thrown e, s') => (Thrown e, s')
    | (Pending, s') => (Pending, s')
    end.

(** [try { m } catch (error) { h error }] *)
Definition try_catch {St A} (m : M St A) (h : JsError → M St A) : M St A :=
  fun s =>
    match m s with
    | (Thrown e, s') => h e s'
    | r => r
    end.

Notation "'let*' x ':=' m 'in' k" := (bind m (fun x => k))
  (at level 10, x pattern, m at level 100, k at level 200).

(** ** The file system *)

Inductive node : Type :=
| File (size : float)
| Dir (size : float).

Definition node_size (n : node) : float :=
  match n with File sz | Dir sz => sz end.

Abbreviation FS := (gmap string node).

(** [fs.existsSync(p)] *)
Definition existsSync (p : string) : M FS bool :=
  fun fs => (Returned (bool_decide (is_Some (fs !! p))), fs).

(** [fs.unlinkSync(p)]: removes a regular file; throws on a missing path
    (ENOENT) and on a directory (EISDIR). *)
Definition unlinkSync (p : string) : M FS unit :=
  fun fs =>
    match fs !! p with
    | Some (File _) => (Returned tt, delete p fs)
    | Some (Dir _) =>
        (Thrown (mkError ("EISDIR: illegal operation on a directory, unlink '"
                            +:+ p +:+ "'")), fs)
    | None =>
        (Thrown (mkError ("ENOENT: no such file or directory, unlink '"
                            +:+ p +:+ "'")), fs)
    end.

(** [fs.renameSync(a, b)]: throws when [a] is missing; a regular file does
    not replace a directory. *)
Definition renameSync (a b : string) : M FS unit :=
  fun fs =>
    match fs !! a with
    | None =>
        (Thrown (mkError ("ENOENT: no such file or directory, rename '"
                            +:+ a +:+ "' -> '" +:+ b +:+ "'")), fs)
    | Some n =>
        match n, fs !! b with
        | File _, Some (Dir _) =>
            (Thrown (mkError ("EISDIR: illegal operation on a directory, rename '"
                                +:+ a +:+ "' -> '" +:+ b +:+ "'")), fs)
        | _, _ => (Returned tt, <[b := n]> (delete a fs))
        end
    end.

(** [fs.statSync(p).size] *)
Definition statSync_size (p : string) : M FS float :=
  fun fs =>
    match fs !! p with
    | Some n => (Returned (node_size n), fs)
    | None =>
        (Thrown (mkError ("ENOENT: no such file or directory, stat '"
                            +:+ p +:+ "'")), fs)
    end.

(** ** External tools and the runtime *)

(** [sharp(src).resize(width, height, { fit: 'inside', withoutEnlargement })
    .jpeg({ quality })] *)
Record SharpJob : Type :=
  { width : nat; height : nat; withoutEnlargement : bool; quality : nat }.

(** What [ffmpeg(src).screenshots(...)] does: it emits ['end'] once the
    frame is written, emits ['error'], or throws before any event. *)
Inductive ffmpeg_event : Type :=
| FfEnd (thumbnailSize : float)
| FfError (err : JsError)
| FfThrows (err : JsError).

(** The image and video tools. Their results depend on file contents, which
    the file system above does not hold: they are an interface.
    [sharp_toFile fs src job dst] is the size of the file written at [dst],
    or the error [toFile] rejects with. *)
Class MediaTools : Type :=
  { sharp_toFile : FS → string → SharpJob → string → JsError + float;
    ffmpeg_screenshots : FS → string → string → string → ffmpeg_event }.

(** The Node.js runtime: the directory of the service module, the global
    functions [parseFloat] and [parseInt], and
    [process.env.SERVICE_API_KEY] ([None] when the variable is unset). *)
Class Runtime : Type :=
  { __dirname : string;
    parseFloat : string → float;
    parseInt : string → float;
    SERVICE_API_KEY : option string }.

(** ** Uploaded files and proofs *)

(** A file as multer's disk storage hands it over. *)
Record UploadedFile : Type :=
  { originalname : string; mimetype : string; path : string }.

(** The object the processing functions return; [thumbnail = None] is
    [null]. *)
Record Proof : Type :=
  { type : string; url : string; thumbnail : option string; size : float }.

Definition proof_js (p : Proof) : jsval :=
  JObj [("type", JStr (type p));
        ("url", JStr (url p));
        ("thumbnail", match thumbnail p with
                      | Some t => JStr t
                      | None => JNull
                      end);
        ("size", JNum (size p))].

(** ** The upload service *)

Module UploadService.
Section service.
Context {rt : Runtime} {tools : MediaTools}.

(** [await sharp(src)....toFile(dst)] *)
Definition sharp (src : string) (job : SharpJob) (dst : string)
  : M FS unit :=
  fun fs =>
    match sharp_toFile fs src job dst with
    | inl e => (Thrown e, fs)
    | inr sz => (Returned tt, <[dst := File sz]> fs)
    end.

Definition processImage (file : UploadedFile) : M FS Proof :=
  try_catch
    (let thumbnailPath :=
       path_join [__dirname; "../uploads/thumbnails";
                  "thumb_" +:+ basename (path file)] in
     let* _ := sharp (path file)
                 {| width := 300; height := 300;
                    withoutEnlargement := false; quality := 80 |}
                 thumbnailPath in
     let optimizedPath := path file in
     let* _ := sharp (path file)
                 {| width := 1200; height := 1200;
                    withoutEnlargement := true; quality := 85 |}
                 (optimizedPath +:+ ".tmp") in
     let* _ := unlinkSync (path file) in
     let* _ := renameSync (optimizedPath +:+ ".tmp") optimizedPath in
     let* sz := statSync_size (path file) in
     ret {| type := "photo";
            url := "/uploads/photos/" +:+ basename (path file);
            thumbnail :=
              Some ("/uploads/thumbnails/thumb_" +:+ basename (path file));
            size := sz |})
    (fun error => throw error).

(** The two event handlers of [processVideo] run after the promise executor
    has returned: an exception of [fs.statSync] inside one of them is caught
    by nothing and the promise never settles. *)
Definition in_handler {A} (m : M FS A) : M FS A :=
  fun fs =>
    match m fs with
    | (Thrown _, fs') => (Pending, fs')
    | r => r
    end.

Definition processVideo (file : UploadedFile) : M FS Proof :=
  fun fs =>
    let thumbnailPath :=
      path_join [__dirname; "../uploads/thumbnails";
                 "thumb_" +:+ basename (path file) +:+ ".jpg"] in
    let folder := path_join [__dirname; "../uploads/thumbnails"] in
    let filename := "thumb_" +:+ basename (path file) +:+ ".jpg" in
    match ffmpeg_screenshots fs (path file) folder filename with
    | FfThrows error => (Thrown error, fs)
    | FfEnd tsz =>
        in_handler
          (let* sz := statSync_size (path file) in
           ret {| type := "video";
                  url := "/uploads/videos/" +:+ basename (path file);
                  thumbnail :=
                    Some ("/uploads/thumbnails/thumb_"
                            +:+ basename (path file) +:+ ".jpg");
                  size := sz |})
          (<[path_join [folder; filename] := File tsz]> fs)
    | FfError err =>
        in_handler
          (let* sz := statSync_size (path file) in
           ret {| type := "video";
                  url := "/uploads/videos/" +:+ basename (path file);
                  thumbnail := None;
                  size := sz |})
          fs
    end.

Definition processAudio (file : UploadedFile) : M FS Proof :=
  try_catch
    (let* sz := statSync_size (path file) in
     ret {| type := "audio";
            url := "/uploads/audio/" +:+ basename (path file);
            thumbnail := Some "/uploads/thumbnails/audio_default.png";
            size := sz |})
    (fun error => throw error).

Definition processFile (file : UploadedFile) : M FS Proof :=
  try_catch
    (if startsWith (mimetype file) "image/" then processImage file
     else if startsWith (mimetype file) "video/" then processVideo file
     else if startsWith (mimetype file) "audio/" then processAudio file
     else throw (mkError "Type de fichier non pris en charge"))
    (fun error => throw error).

Definition deleteFile (fileUrl : string) : M FS bool :=
  try_catch
    (let fileName := basename fileUrl in
     let* filePath :=
       if includes fileUrl "/photos/" then
         let filePath :=
           path_join [__dirname; "../uploads/photos"; fileName] in
         let thumbnailPath :=
           path_join [__dirname; "../uploads/thumbnails";
                      "thumb_" +:+ fileName] in
         let* present := existsSync thumbnailPath in
         let* _ := if present : bool then unlinkSync thumbnailPath
                   else ret tt in
         ret filePath
       else if includes fileUrl "/videos/" then
         let filePath :=
           path_join [__dirname; "../uploads/videos"; fileName] in
         let thumbnailPath :=
           path_join [__dirname; "../uploads/thumbnails";
                      "thumb_" +:+ fileName +:+ ".jpg"] in
         let* present := existsSync thumbnailPath in
         let* _ := if present : bool then unlinkSync thumbnailPath
                   else ret tt in
         ret filePath
       else if includes fileUrl "/audio/" then
         ret (path_join [__dirname; "../uploads/audio"; fileName])
       else throw (mkError "Type de fichier non reconnu") in
     let* present := existsSync filePath in
     if present : bool then
       let* _ := unlinkSync filePath in ret true
     else ret false)
    (fun error => throw error).

End service.
End UploadService.

(** ** The alert service and the world the controller runs in *)

(** The object [alertData] the controller hands to the service. *)
Record AlertData : Type :=
  { serviceId : jsval;
    category : jsval;
    description : jsval;
    coordinates : jsval;
    address : jsval;
    isAnonymous : bool;
    proofs : jsval }.

(** [services/alert.service]: the persistence operations the controller
    calls, over the state [Db] of the store. *)
Class AlertService (Db : Type) : Type :=
  { alertService_createAlert : AlertData → jsval → M Db jsval;
    alertService_getAlertsNearby : jsval → jsval → M Db jsval;
    alertService_updateAlertStatus :
      jsval → jsval → jsval → jsval → M Db jsval }.

(** The calls made to the alert service, with their arguments. *)
Inductive Call : Type :=
| CallCreateAlert (alertData : AlertData) (citizenId : jsval)
| CallGetAlertsNearby (coordinates maxDistance : jsval)
| CallUpdateAlertStatus (alertId status comment updatedBy : jsval).

Record World (Db : Type) : Type :=
  { disk : FS; db : Db; calls : list Call }.
Arguments disk {Db} w.
Arguments db {Db} w.
Arguments calls {Db} w.

(** A computation of the upload service, run on the world's disk. *)
Definition on_disk {Db A} (m : M FS A) : M (World Db) A :=
  fun w =>
    let (r, fs') := m (disk w) in
    (r, {| disk := fs'; db := db w; calls := calls w |}).

(** A call to the alert service: it is recorded, then run on the store. *)
Definition call_service {Db A} (c : Call) (m : M Db A) : M (World Db) A :=
  fun w =>
    let (r, db') := m (db w) in
    (r, {| disk := disk w; db := db'; calls := calls w ++ [c] |}).

(** ** Requests and responses *)

(** An Express request as the controller reads it: [req.body] is an object,
    [req.files] is absent or the array multer fills, [req.user] is absent or
    the verified token, header and query values are strings. *)
Record Request : Type :=
  { body : gmap string jsval;
    files : option (list UploadedFile);
    user : option (gmap string jsval);
    headers : gmap string string;
    query : gmap string string }.

(** [res.status(code).json(payload)] *)
Record Response : Type := { status : nat; json : jsval }.

Definition failure (code : nat) (msg : string) : Response :=
  {| status := code;
     json := JObj [("success", JBool false); ("message", JStr msg)] |}.

(** [!s] on a value that is a string or [undefined]. *)
Definition missing (s : option string) : bool :=
  match s with
  | None => true
  | Some s => String.eqb s ""
  end.

(** The string [parseFloat] and [parseInt] read, from a value that is a
    string or [undefined]. *)
Definition ToString (s : option string) : string :=
  default "undefined" s.

(** ** The alert controller *)

Module AlertController.
Section controller.
Context {rt : Runtime} {tools : MediaTools} {Db : Type}
  {svc : AlertService Db}.

(** The loop [for (const file of req.files)] of [createAlert]. *)
Fixpoint processFiles (files : list UploadedFile) (proofs : list jsval)
  : M (World Db) (list jsval) :=
  match files with
  | [] => ret proofs
  | file :: rest =>
      let* processedFile := on_disk (UploadService.processFile file) in
      processFiles rest (proofs ++ [proof_js processedFile])
  end.

Definition createAlert (req : Request) : M (World Db) Response :=
  try_catch
    (let serviceId := prop (body req) "serviceId" in
     let category := prop (body req) "category" in
     let description := prop (body req) "description" in
     let coordinates := prop (body req) "coordinates" in
     let address := prop (body req) "address" in
     let isAnonymous := prop (body req) "isAnonymous" in
     if negb (truthy coordinates) || negb (isArray coordinates)
        || length_differs coordinates 2 then
       ret (failure 400
              "Les coordonnées de localisation sont requises (format: [longitude, latitude])")
     else
       let* proofs :=
         match files req with
         | Some (file :: rest) =>
             let* processed := processFiles (file :: rest) [] in
             ret (JArr processed)
         | _ =>
             if truthy (prop (body req) "proofs")
                && isArray (prop (body req) "proofs")
                && length_positive (prop (body req) "proofs") then
               ret (prop (body req) "proofs")
             else ret (JArr [])
         end in
       let citizenId :=
         match user req with
         | Some u => prop u "sub"
         | None => JNull
         end in
       let alertData :=
         {| serviceId := serviceId;
            category := category;
            description := description;
            coordinates := coordinates;
            address := address;
            isAnonymous :=
              match isAnonymous with
              | JStr s => String.eqb s "true"
              | JBool b => b
              | _ => false
              end;
            proofs := proofs |} in
       let* alert :=
         call_service (CallCreateAlert alertData citizenId)
           (alertService_createAlert alertData citizenId) in
       ret {| status := 201;
              json := JObj [("success", JBool true);
                            ("message", JStr "Alerte créée avec succès");
                            ("data", alert)] |})
    (fun error =>
       ret (failure 400
              (str_or (message error)
                 "Erreur lors de la création de l'alerte"))).

Definition getAlertsNearby (req : Request) : M (World Db) Response :=
  try_catch
    (let longitude := query req !! "longitude" in
     let latitude := query req !! "latitude" in
     let distance := query req !! "distance" in
     if missing longitude || missing latitude then
       ret (failure 400
              "Les coordonnées (longitude, latitude) sont requises")
     else
       let coordinates :=
         JArr [JNum (parseFloat (ToString longitude));
               JNum (parseFloat (ToString latitude))] in
       let maxDistance :=
         if negb (missing distance) then JNum (parseInt (ToString distance))
         else JNum 5000 in
       let* alerts :=
         call_service (CallGetAlertsNearby coordinates maxDistance)
           (alertService_getAlertsNearby coordinates maxDistance) in
       ret {| status := 200;
              json := JObj [("success", JBool true); ("data", alerts)] |})
    (fun error =>
       ret (failure 400
              (str_or (message error)
                 "Erreur lors de la recherche d'alertes à proximité"))).

(** [serviceApiKey !== process.env.SERVICE_API_KEY], both a string or
    [undefined]. *)
Definition key_differs (serviceApiKey configured : option string) : bool :=
  match serviceApiKey, configured with
  | Some k, Some k' => negb (String.eqb k k')
  | None, None => false
  | _, _ => true
  end.

Definition updateAlertStatus (req : Request) : M (World Db) Response :=
  try_catch
    (let alertId := prop (body req) "alertId" in
     let status := prop (body req) "status" in
     let comment := prop (body req) "comment" in
     let updatedBy := prop (body req) "updatedBy" in
     let serviceApiKey := headers req !! "x-service-key" in
     if missing serviceApiKey
        || key_differs serviceApiKey SERVICE_API_KEY then
       ret (failure 401 "Authentification requise")
     else if negb (truthy alertId) || negb (truthy status) then
       ret (failure 400 "L'ID de l'alerte et le statut sont requis")
     else
       let* alert :=
         call_service
           (CallUpdateAlertStatus alertId status comment updatedBy)
           (alertService_updateAlertStatus alertId status comment
              updatedBy) in
       ret {| status := 200;
              json :=
                JObj [("success", JBool true);
                      ("message",
                       JStr "Statut de l'alerte mis à jour avec succès");
                      ("data", alert)] |})
    (fun error =>
       ret (failure 400
              (str_or (message error)
                 "Erreur lors de la mise à jour du statut"))).

End controller.
End AlertController.

(** ** The alert service of the design document *)

Module SpecAlertService.

(** Modelled from the spec: the Alert entity of the data model
    ([services/alert.service] and its schema are not among the sources).
    Timestamps are managed by the store and are left out. *)
Record Alert : Type :=
  { id : string;
    serviceId : jsval;
    category : jsval;
    description : jsval;
    location : jsval;
    address : jsval;
    isAnonymous : bool;
    citizenId : jsval;
    proofs : jsval;
    status : jsval;
    comments : list jsval }.

(** Modelled from the spec: the stored record as the JSON the service
    returns. *)
Definition alert_js (a : Alert) : jsval :=
  JObj [("id", JStr (id a));
        ("serviceId", serviceId a);
        ("category", category a);
        ("description", description a);
        ("location", location a);
        ("address", address a);
        ("isAnonymous", JBool (isAnonymous a));
        ("citizenId", citizenId a);
        ("proofs", proofs a);
        ("status", status a);
        ("comments", JArr (comments a))].

(** Modelled from the spec: a geospatial point is stored as
    [{ type: "Point", coordinates: [longitude, latitude] }]. *)
Definition point (lon lat : float) : jsval :=
  JObj [("type", JStr "Point");
        ("coordinates", JArr [JNum lon; JNum lat])].

(** Modelled from the spec: the persistence half of alert creation
    ([alertService.createAlert], absent from the sources). Coordinates
    must be two numbers (NaN is not one); the alert is stored with initial
    status "pending" and a fresh identifier, and the stored record is
    returned. Range checks are not performed. *)
Definition createAlert (fields : AlertData) (citizen : jsval)
  : M (list Alert) jsval :=
  fun store =>
    let '(Build_AlertData serviceId' category' description' coordinates'
            address' isAnonymous' proofs') := fields in
    match coordinates' with
    | JArr [JNum lon; JNum lat] =>
        if PrimFloat.is_nan lon || PrimFloat.is_nan lat then
          (Thrown (mkError "ValidationError: coordinates"), store)
        else
          let alert :=
            {| id := pretty (length store);
               serviceId := serviceId';
               category := category';
               description := description';
               location := point lon lat;
               address := address';
               isAnonymous := isAnonymous';
               citizenId := citizen;
               proofs := proofs';
               status := JStr "pending";
               comments := [] |} in
          (Returned (alert_js alert), store ++ [alert])
    | _ => (Thrown (mkError "ValidationError: coordinates"), store)
    end.

Section queries.
(** The distance in meters between a stored location and a point, as
    the geospatial index of the store computes it. *)
Variable meters : jsval → jsval → float.

(** Modelled from the spec: proximity query, the alerts within
    [maxDistance] meters of [center]. *)
Definition getAlertsNearby (center maxDistance : jsval)
  : M (list Alert) jsval :=
  fun store =>
    match maxDistance with
    | JNum r =>
        (Returned
           (JArr (alert_js <$>
                    filter (fun a =>
                              PrimFloat.leb (meters (location a) center) r
                              = true) store)),
         store)
    | _ => (Thrown (mkError "ValidationError: distance"), store)
    end.
End queries.

(** Modelled from the spec: an identifier resolves to the alert that
    carries it. *)
Definition has_id (alertId : jsval) (a : Alert) : bool :=
  match alertId with
  | JStr i => String.eqb i (id a)
  | _ => false
  end.

(** Modelled from the spec: the new status replaces the old one and the
    optional note is appended. *)
Definition transition (newStatus comment updatedBy : jsval) (a : Alert)
  : Alert :=
  {| id := id a;
     serviceId := serviceId a;
     category := category a;
     description := description a;
     location := location a;
     address := address a;
     isAnonymous := isAnonymous a;
     citizenId := citizenId a;
     proofs := proofs a;
     status := newStatus;
     comments :=
       if truthy comment then
         comments a ++ [JObj [("author", updatedBy); ("text", comment)]]
       else comments a |}.

(** Modelled from the spec: the status transition, NotFoundError when
    the identifier resolves to no alert; otherwise the status is replaced,
    the optional note appended, and the updated alert returned. *)
Definition updateAlertStatus (alertId newStatus comment updatedBy : jsval)
  : M (list Alert) jsval :=
  fun store =>
    match filter (fun a => has_id alertId a = true) store with
    | [] => (Thrown (mkError "NotFoundError: alert"), store)
    | a :: _ =>
        (Returned (alert_js (transition newStatus comment updatedBy a)),
         (fun b => if has_id alertId b
                   then transition newStatus comment updatedBy b
                   else b) <$> store)
    end.

(** Modelled from the spec: the three operations as the service the
    controller calls. *)
Definition service (meters : jsval → jsval → float)
  : AlertService (list Alert) :=
  {| alertService_createAlert := createAlert;
     alertService_getAlertsNearby := getAlertsNearby meters;
     alertService_updateAlertStatus := updateAlertStatus |}.

End SpecAlertService.

(** ** Notions used by the statements *)

Fixpoint has_slash (s : string) : bool :=
  match s with
  | EmptyString => false
  | String c s' => is_slash c || has_slash s'
  end.

(** The storage folder a URL resolves into: the markers are tried in the
    order [deleteFile] tries them. *)
Definition folder_of_url (u : string) : option string :=
  if includes u "/photos/" then Some "photos"
  else if includes u "/videos/" then Some "videos"
  else if includes u "/audio/" then Some "audio"
  else None.

(** The storage folder of each proof type. *)
Definition folder_of_type (t : string) : option string :=
  if String.eqb t "photo" then Some "photos"
  else if String.eqb t "video" then Some "videos"
  else if String.eqb t "audio" then Some "audio"
  else None.

(** The files of a list are processed one after the other, each by
    [processFile] on the disk the previous one left, and every one returns
    a proof. *)
Inductive processed_all {rt : Runtime} {tools : MediaTools}
  : FS → list UploadedFile → list Proof → FS → Prop :=
| processed_nil fs : processed_all fs [] [] fs
| processed_cons fs file p fs1 rest ps fs2 :
    UploadService.processFile file fs = (Returned p, fs1) →
    processed_all fs1 rest ps fs2 →
    processed_all fs (file :: rest) (p :: ps) fs2.

(** Every proof a processor returns has the given type and URL. *)
Definition produces (r : outcome Proof * FS) (ty u : string) : Prop :=
  ∀ p fs', r = (Returned p, fs') → type p = ty ∧ url p = u.

(** Both encodings of [processImage] succeed on [file] from the disk [fs]:
    the thumbnail is written with size [tsz], then the optimized image with
    size [osz]. *)
Definition image_encodings_succeed {rt : Runtime} {tools : MediaTools}
    (file : UploadedFile) (fs : FS) (tsz osz : float) : Prop :=
  let thumbnailPath :=
    path_join [__dirname; "../uploads/thumbnails";
               "thumb_" +:+ basename (path file)] in
  sharp_toFile fs (path file)
    {| width := 300; height := 300;
       withoutEnlargement := false; quality := 80 |} thumbnailPath
  = inr tsz ∧
  sharp_toFile (<[thumbnailPath := File tsz]> fs) (path file)
    {| width := 1200; height := 1200;
       withoutEnlargement := true; quality := 85 |} (path file +:+ ".tmp")
  = inr osz.

(** What [deleteFile] does for an asset at [primary] that has a thumbnail
    at [thumb], from the disk [fs]: a thumbnail that cannot be unlinked (a
    directory sits at its path) makes the whole call throw and leaves the
    disk as it was; otherwise the thumbnail is gone, and the call returns
    false when there is no primary file, true after unlinking it. *)
Definition deletes_with_thumbnail (r : outcome bool * FS) (fs : FS)
    (primary thumb : string) : Prop :=
  (∀ sz, fs !! thumb = Some (Dir sz) → ∃ e, r = (Thrown e, fs)) ∧
  ((∀ sz, fs !! thumb ≠ Some (Dir sz)) →
   (fs !! primary = None → r = (Returned false, delete thumb fs)) ∧
   (∀ sz, delete thumb fs !! primary = Some (File sz) →
          r = (Returned true, delete primary (delete thumb fs)))).

(** The same for an asset without thumbnail. *)
Definition deletes_alone (r : outcome bool * FS) (fs : FS)
    (primary : string) : Prop :=
  (fs !! primary = None → r = (Returned false, fs)) ∧
  (∀ sz, fs !! primary = Some (File sz) →
         r = (Returned true, delete primary fs)).

(** The [alertData] of a request once its proofs are resolved, and the
    citizen it is created for. *)
Definition request_alertData (req : Request) (proofs : jsval) : AlertData :=
  {| serviceId := prop (body req) "serviceId";
     category := prop (body req) "category";
     description := prop (body req) "description";
     coordinates := prop (body req) "coordinates";
     address := prop (body req) "address";
     isAnonymous :=
       match prop (body req) "isAnonymous" with
       | JStr s => String.eqb s "true"
       | JBool b => b
       | _ => false
       end;
     proofs := proofs |}.

Definition request_citizenId (req : Request) : jsval :=
  match user req with
  | Some u => prop u "sub"
  | None => JNull
  end.

(** The 201 response of [createAlert]. *)
Definition created (alert : jsval) : Response :=
  {| status := 201;
     json := JObj [("success", JBool true);
                   ("message", JStr "Alerte créée avec succès");
                   ("data", alert)] |}.

(** The request with its inline [proofs] field replaced by [v]. *)
Definition with_inline_proofs (v : jsval) (req : Request) : Request :=
  {| body := <["proofs" := v]> (body req);
     files := files req;
     user := user req;
     headers := headers req;
     query := query req |}.

(** The 200 response of [getAlertsNearby]. *)
Definition found (alerts : jsval) : Response :=
  {| status := 200;
     json := JObj [("success", JBool true); ("data", alerts)] |}.

(** A controller reaches the alert service: the call [c] is recorded, the
    operation [m] runs on the store, and its outcome is answered: [ok] on
    the value it returns, status 400 with its message ([fallback] when the
    message is empty) on the error it throws. *)
Definition answered {Db} (c : Call) (m : M Db jsval) (ok : jsval → Response)
    (fallback : string) (w : World Db) : outcome Response * World Db :=
  let (o, db') := m (db w) in
  (match o with
   | Returned v => Returned (ok v)
   | Thrown e => Returned (failure 400 (str_or (message e) fallback))
   | Pending => Pending
   end,
   {| disk := disk w; db := db'; calls := calls w ++ [c] |}).

(** [createAlert] reaching the service with the proofs [proofs], from the
    world [w]. *)
Definition persisted {Db} {svc : AlertService Db} (req : Request) (proofs : jsval)
    (w : World Db) : outcome Response * World Db :=
  answered
    (CallCreateAlert (request_alertData req proofs) (request_citizenId req))
    (alertService_createAlert (request_alertData req proofs)
       (request_citizenId req))
    created "Erreur lors de la création de l'alerte" w.

(** The message of the coordinate check. *)
Definition coordinates_required : string :=
  "Les coordonnées de localisation sont requises (format: [longitude, latitude])".

(** ** A concrete configuration for the examples *)

Module Fixture.

(** [parseFloat] and [parseInt] on the strings the examples use. *)
Definition parse (s : string) : float :=
  if String.eqb s "2.35" then 2.35%float
  else if String.eqb s "48.85" then 48.85%float
  else if String.eqb s "1000" then 1000%float
  else PrimFloat.nan.

Definition runtime (key : option string) : Runtime :=
  {| __dirname := "/srv/citizen-service/src/services";
     parseFloat := parse;
     parseInt := parse;
     SERVICE_API_KEY := key |}.

Definition secret : string := "bolle-inter-service-secure-key-2025".

(** Tools that succeed, and tools whose frame extraction fails. *)
Definition tools_ok : MediaTools :=
  {| sharp_toFile := fun _ _ job _ =>
       inr (if withoutEnlargement job then 90000 else 7000)%float;
     ffmpeg_screenshots := fun _ _ _ _ => FfEnd 5000%float |}.

Definition tools_ffmpeg_error : MediaTools :=
  {| sharp_toFile := fun _ _ job _ =>
       inr (if withoutEnlargement job then 90000 else 7000)%float;
     ffmpeg_screenshots := fun _ _ _ _ =>
       FfError (mkError "ffmpeg exited with code 1") |}.

Definition flat (_ _ : jsval) : float := 0%float.

Definition photo : UploadedFile :=
  {| originalname := "nid-de-poule.jpg";
     mimetype := "image/jpeg";
     path := "/srv/citizen-service/src/uploads/photos/1717-a1b2c3.jpg" |}.

Definition video : UploadedFile :=
  {| originalname := "fuite.mp4";
     mimetype := "video/mp4";
     path := "/srv/citizen-service/src/uploads/videos/1717-d4e5f6.mp4" |}.

Definition document : UploadedFile :=
  {| originalname := "plainte.pdf";
     mimetype := "application/pdf";
     path := "/srv/citizen-service/src/uploads/photos/1717-0a0b0c.pdf" |}.

Definition disk0 : FS :=
  {[ "/srv/citizen-service/src/uploads/photos/1717-a1b2c3.jpg"
       := File 250000%float;
     "/srv/citizen-service/src/uploads/videos/1717-d4e5f6.mp4"
       := File 4000000%float;
     "/srv/citizen-service/src/uploads/photos/1717-0a0b0c.pdf"
       := File 1200%float ]}.

Definition world0 : World (list SpecAlertService.Alert) :=
  {| disk := disk0; db := []; calls := [] |}.

Definition request (b : gmap string jsval)
    (fl : option (list UploadedFile)) : Request :=
  {| body := b;
     files := fl;
     user := Some {[ "sub" := JStr "citizen-42" ]};
     headers := ∅;
     query := ∅ |}.

Definition coords : jsval := JArr [JNum 2.35; JNum 48.85].

Definition inline : jsval :=
  JArr [JObj [("type", JStr "photo");
              ("url", JStr "/uploads/photos/1700-ffeedd.jpg")]].

Definition photo_url : string := "/uploads/photos/1717-a1b2c3.jpg".

Definition photo_thumbnail : string :=
  "/srv/citizen-service/src/uploads/thumbnails/thumb_1717-a1b2c3.jpg".

(** The photo with its thumbnail, and the same with a directory where the
    thumbnail would be. *)
Definition disk_thumbnail : FS := <[photo_thumbnail := File 7000%float]> disk0.

Definition disk_blocked : FS := <[photo_thumbnail := Dir 4096%float]> disk0.

(** The video with its thumbnail, and a URL that names it below a
    /photos/ segment. *)
Definition video_thumbnail : string :=
  "/srv/citizen-service/src/uploads/thumbnails/thumb_1717-d4e5f6.mp4.jpg".

Definition disk_video : FS := <[video_thumbnail := File 5000%float]> disk0.

Definition two_marker_url : string :=
  "/uploads/photos/../videos/1717-d4e5f6.mp4".

Definition photo_proof : Proof :=
  {| type := "photo";
     url := "/uploads/photos/1717-a1b2c3.jpg";
     thumbnail := Some "/uploads/thumbnails/thumb_1717-a1b2c3.jpg";
     size := 90000%float |}.

Definition video_degraded : Proof :=
  {| type := "video";
     url := "/uploads/videos/1717-d4e5f6.mp4";
     thumbnail := None;
     size := 4000000%float |}.

Definition status_update (key : option string) : Request :=
  {| body := {[ "alertId" := JStr "0"; "status" := JStr "resolved" ]};
     files := None;
     user := None;
     headers := match key with
                | Some k => {[ "x-service-key" := k ]}
                | None => ∅
                end;
     query := ∅ |}.

Definition nearby (q : gmap string string) : Request :=
  {| body := ∅; files := None; user := None; headers := ∅; query := q |}.

End Fixture.

(** ** The rest of the upload service: storage folders and multer callbacks *)

Definition is_dot (c : ascii) : bool := Ascii.eqb c "."%char.

(** The first dot of a list of characters: what precedes it and what
    follows it. *)
Fixpoint split_at_dot (l : list ascii) : option (list ascii * list ascii) :=
  match l with
  | [] => None
  | c :: l' =>
      if is_dot c then Some ([], l')
      else match split_at_dot l' with
           | Some (before, after) => Some (c :: before, after)
           | None => None
           end
  end.

(** [path.extname(p)] (POSIX). The scan runs from the end over the last
    component (trailing separators skipped): the extension starts at the
    last dot of the component; there is none when the component has no dot,
    when its last dot is its first character, and when the component is
    exactly "..". *)
Definition extname (p : string) : string :=
  match split_at_dot
          (until_slash (skip_slashes (rev (list_ascii_of_string p)))) with
  | None => ""
  | Some (ext_reversed, stem_reversed) =>
      match rev stem_reversed with
      | [] => ""
      | c :: stem =>
          if is_dot c && bool_decide (stem = []) && bool_decide (ext_reversed = [])
          then ""
          else string_of_list_ascii ("."%char :: rev ext_reversed)
      end
  end.






Definition hex_digit (n : N) : ascii :=
  match n with
  | 0%N => "0" | 1%N => "1" | 2%N => "2" | 3%N => "3"
  | 4%N => "4" | 5%N => "5" | 6%N => "6" | 7%N => "7"
  | 8%N => "8" | 9%N => "9" | 10%N => "a" | 11%N => "b"
  | 12%N => "c" | 13%N => "d" | 14%N => "e" | _ => "f"
  end%char.

(** [buffer.toString('hex')]: two lowercase digits per byte. *)
Fixpoint hex (bytes : list Byte.byte) : string :=
  match bytes with
  | [] => ""
  | b :: rest =>
      String (hex_digit (Byte.to_N b / 16))
        (String (hex_digit (Byte.to_N b mod 16)) (hex rest))
  end.

Module UploadConfig.
Section config.
Context {rt : Runtime}.

(** The system's size of a new directory. *)
Variable blksize : float.


(** The [destination] callback of the disk storage: what it hands to
    [cb(null, ...)]. *)
Definition destination (file : UploadedFile) : string :=
  let folder :=
    if startsWith (mimetype file) "video/" then "videos"
    else if startsWith (mimetype file) "audio/" then "audio"
    else "photos" in
  path_join [__dirname; "../uploads/" +:+ folder].

(** The [filename] callback, for [Date.now()] equal to [now] milliseconds
    and [crypto.randomBytes(6)] equal to [bytes]. *)
Definition filename (now : N) (bytes : list Byte.byte) (file : UploadedFile)
  : string :=
  let uniqueSuffix := pretty now +:+ "-" +:+ hex bytes in
  let extension := extname (originalname file) in
  uniqueSuffix +:+ extension.

Definition allowedMimeTypes : list string :=
  ["image/jpeg"; "image/png"; "image/gif"; "image/webp";
   "video/mp4"; "video/quicktime"; "video/x-msvideo"; "video/webm";
   "audio/mpeg"; "audio/wav"; "audio/ogg"; "audio/webm"].

(** The [fileFilter] callback: [cb(null, true)] is [inr true],
    [cb(new Error(...), false)] is the error. *)
Definition fileFilter (file : UploadedFile) : JsError + bool :=
  if bool_decide (mimetype file ∈ allowedMimeTypes) then inr true
  else inl (mkError "Type de fichier non autorisé").

(** [limits.fileSize], in bytes. *)
Definition fileSize_limit : N := 50 * 1024 * 1024.

End config.
End UploadConfig.

(** ** The rest of the alert controller: reading alerts and commenting *)

(** The operations of [services/alert.service] these handlers call. *)
Class AlertQueryService (Db : Type) : Type :=
  { alertService_getAlertsByCitizen : jsval → M Db jsval;
    alertService_getAlertById : jsval → jsval → M Db jsval;
    alertService_addComment : jsval → jsval → jsval → M Db jsval }.

Inductive QueryCall : Type :=
| CallGetAlertsByCitizen (citizenId : jsval)
| CallGetAlertById (id citizenId : jsval)
| CallAddComment (id text citizenId : jsval).

(** The store and the record of the calls made to the service. *)
Record Session (Db : Type) : Type := { store : Db; asked : list QueryCall }.
Arguments store {Db} s.
Arguments asked {Db} s.

Definition ask {Db A} (c : QueryCall) (m : M Db A) : M (Session Db) A :=
  fun s =>
    let (r, db') := m (store s) in
    (r, {| store := db'; asked := asked s ++ [c] |}).

(** The JavaScript engine: the message of the TypeError thrown when the
    property [k] of [undefined] is read. *)
Class Engine : Type := { undefined_read : string → string }.

Module AlertControllerQueries.
Section handlers.
Context {engine : Engine} {Db : Type} {svc : AlertQueryService Db}.

(** [req.user.sub]: a TypeError when [req.user] is undefined. *)
Definition user_sub {St} (req : Request) : M St jsval :=
  match user req with
  | Some u => ret (prop u "sub")
  | None => throw (mkError (undefined_read "sub"))
  end.

(** [req.params.id], a string or [undefined]. *)
Definition param_id (params : gmap string string) : jsval :=
  match params !! "id" with
  | Some i => JStr i
  | None => JUndefined
  end.

Definition getMyAlerts (req : Request) : M (Session Db) Response :=
  try_catch
    (let* citizenId := user_sub req in
     let* alerts :=
       ask (CallGetAlertsByCitizen citizenId)
         (alertService_getAlertsByCitizen citizenId) in
     ret {| status := 200;
            json := JObj [("success", JBool true); ("data", alerts)] |})
    (fun error =>
       ret (failure 400
              (str_or (message error)
                 "Erreur lors de la récupération des alertes"))).

Definition getAlertById (params : gmap string string) (req : Request)
  : M (Session Db) Response :=
  try_catch
    (let id := param_id params in
     let* citizenId := user_sub req in
     let* alert :=
       ask (CallGetAlertById id citizenId)
         (alertService_getAlertById id citizenId) in
     ret {| status := 200;
            json := JObj [("success", JBool true); ("data", alert)] |})
    (fun error =>
       ret (failure 404 (str_or (message error) "Alerte non trouvée"))).

Definition addComment (params : gmap string string) (req : Request)
  : M (Session Db) Response :=
  try_catch
    (let id := param_id params in
     let text := prop (body req) "text" in
     let* citizenId := user_sub req in
     if negb (truthy text) then
       ret (failure 400 "Le texte du commentaire est requis")
     else
       let* alert :=
         ask (CallAddComment id text citizenId)
           (alertService_addComment id text citizenId) in
       ret {| status := 200;
              json := JObj [("success", JBool true);
                            ("message", JStr "Commentaire ajouté avec succès");
                            ("data", alert)] |})
    (fun error =>
       ret (failure 400
              (str_or (message error)
                 "Erreur lors de l'ajout du commentaire"))).

End handlers.
End AlertControllerQueries.

(** ** Notions used by the further statements *)

(** A plain file name: not empty, without separator, neither "." nor
    "..". *)
Definition plain_name (n : string) : Prop :=
  n ≠ "" ∧ has_slash n = false ∧ n ≠ "." ∧ n ≠ "..".

(** A directory prefix: empty, or ending with a separator. *)
Definition dir_prefix (z : string) : Prop :=
  z = "" ∨ ∃ z', z = z' +:+ "/".

Definition is_dash (c : ascii) : bool := Ascii.eqb c "-"%char.

Fixpoint has_dash (s : string) : bool :=
  match s with
  | EmptyString => false
  | String c s' => is_dash c || has_dash s'
  end.

Fixpoint has_dot (s : string) : bool :=
  match s with
  | EmptyString => false
  | String c s' => is_dot c || has_dot s'
  end.



(** The paths [deleteFile] may unlink for a URL: the asset and, for a photo
    or a video, its thumbnail. *)
Definition deletion_targets {rt : Runtime} (fileUrl : string) : list string :=
  let fileName := basename fileUrl in
  if includes fileUrl "/photos/" then
    [path_join [__dirname; "../uploads/photos"; fileName];
     path_join [__dirname; "../uploads/thumbnails"; "thumb_" +:+ fileName]]
  else if includes fileUrl "/videos/" then
    [path_join [__dirname; "../uploads/videos"; fileName];
     path_join [__dirname; "../uploads/thumbnails";
                "thumb_" +:+ fileName +:+ ".jpg"]]
  else if includes fileUrl "/audio/" then
    [path_join [__dirname; "../uploads/audio"; fileName]]
  else [].

(** From [fs] to [fs'] nothing was created or changed, and only regular
    files among [targets] were removed. *)
Definition only_unlinked (targets : list string) (fs fs' : FS) : Prop :=
  ∀ q, fs' !! q = fs !! q
       ∨ (q ∈ targets ∧ fs' !! q = None ∧ ∃ sz, fs !! q = Some (File sz)).


(** Tools whose thumbnail encoding succeeds and whose optimisation fails,
    for the examples. *)
Definition tools_optimize_fails : MediaTools :=
  {| sharp_toFile := fun _ _ job _ =>
       if withoutEnlargement job
       then inl (mkError "Input file contains unsupported image format")
       else inr 7000%float;
     ffmpeg_screenshots := fun _ _ _ _ => FfEnd 5000%float |}.

(** The request with the field [k] of its body set to [v]. *)
Definition with_body_field (k : string) (v : jsval) (req : Request) : Request :=
  {| body := <[k := v]> (body req);
     files := files req;
     user := user req;
     headers := headers req;
     query := query req |}.

(** The fields of the body [createAlert] reads. *)
Definition createAlert_fields : list string :=
  ["serviceId"; "category"; "description"; "coordinates"; "address";
   "isAnonymous"; "proofs"].

(** The 200 response of [updateAlertStatus]. *)
Definition updated (alert : jsval) : Response :=
  {| status := 200;
     json := JObj [("success", JBool true);
                   ("message",
                    JStr "Statut de l'alerte mis à jour avec succès");
                   ("data", alert)] |}.

(** The request carries the configured secret: its x-service-key header is
    a non-empty string equal to [SERVICE_API_KEY]. *)
Definition carries_secret {rt : Runtime} (req : Request) : Prop :=
  ∃ k, k ≠ "" ∧ headers req !! "x-service-key" = Some k
       ∧ SERVICE_API_KEY = Some k.

(** A handler of [AlertControllerQueries] reaches the service: the call is
    recorded, the operation runs on the store, and its outcome is answered,
    an error with the status [code]. *)
Definition replied {Db} (c : QueryCall) (m : M Db jsval)
    (ok : jsval → Response) (code : nat) (fallback : string)
    (s : Session Db) : outcome Response * Session Db :=
  let (o, db') := m (store s) in
  (match o with
   | Returned v => Returned (ok v)
   | Thrown e => Returned (failure code (str_or (message e) fallback))
   | Pending => Pending
   end,
   {| store := db'; asked := asked s ++ [c] |}).

(** The 200 response of [addComment]. *)
Definition commented (alert : jsval) : Response :=
  {| status := 200;
     json := JObj [("success", JBool true);
                   ("message", JStr "Commentaire ajouté avec succès");
                   ("data", alert)] |}.

(** A service of the examples for the reading handlers: a store of alerts
    as JSON values; an alert is found by its position. *)
Definition list_service : AlertQueryService (list jsval) :=
  {| alertService_getAlertsByCitizen := fun _ store =>
       (Returned (JArr store), store);
     alertService_getAlertById := fun id _ store =>
       match id, store with
       | JStr "0", alert :: _ => (Returned alert, store)
       | _, _ => (Thrown (mkError "Alerte non trouvée ou accès refusé"), store)
       end;
     alertService_addComment := fun id text _ store =>
       match id, store with
       | JStr "0", alert :: rest =>
           (Returned (JArr [alert; text]), JArr [alert; text] :: rest)
       | _, _ => (Thrown (mkError "Alerte non trouvée"), store)
       end |}.

(** V8's message for a property read on [undefined]. *)
Definition v8 : Engine :=
  {| undefined_read := fun k =>
       "Cannot read properties of undefined (reading '" +:+ k +:+ "')" |}.

(** ** Properties of the monad *)

Lemma try_catch_rethrow {St A} (m : M St A) (s : St) :
  try_catch m (fun error => throw error) s = m s.
Proof.
  unfold try_catch, throw. destruct (m s) as [[a|e|] s']; reflexivity.
Qed.

Lemma bind_returned {St A B} (m : M St A) (k : A → M St B) s a s' :
  m s = (Returned a, s') → bind m k s = k a s'.
Proof. intros Hm. unfold bind. rewrite Hm. reflexivity. Qed.

Lemma bind_thrown {St A B} (m : M St A) (k : A → M St B) s e s' :
  m s = (Thrown e, s') → bind m k s = (Thrown e, s').
Proof. intros Hm. unfold bind. rewrite Hm. reflexivity. Qed.

Lemma try_catch_bind {St A B} (m : M St A) (k : A → M St B)
    (h : JsError → M St B) (s : St) :
  try_catch (bind m k) h s =
    match m s with
    | (Returned a, s1) => try_catch (k a) h s1
    | (Thrown e, s1) => h e s1
    | (Pending, s1) => (Pending, s1)
    end.
Proof.
  unfold try_catch, bind. destruct (m s) as [[a|e|] s1]; reflexivity.
Qed.

(** ** Properties of strings and paths *)

Lemma prefix_has_slash (t s : string) :
  String.prefix t s = true → has_slash t = true → has_slash s = true.
Proof.
  revert s. induction t as [|c t IH]; intros s Hp Ht; [discriminate|].
  destruct s as [|d s]; simpl in Hp; [discriminate|].
  destruct (ascii_dec c d) as [->|]; [|discriminate].
  simpl in *. destruct (is_slash d); [reflexivity|]. simpl in *. eauto.
Qed.

Lemma includes_has_slash (s t : string) :
  includes s t = true → has_slash t = true → has_slash s = true.
Proof.
  induction s as [|c s IH]; simpl; intros Hi Ht.
  - rewrite orb_false_r in Hi. eapply (prefix_has_slash t ""); eauto.
  - apply orb_true_iff in Hi as [Hp|Hi].
    + apply (prefix_has_slash t (String c s)); assumption.
    + rewrite (IH Hi Ht). apply orb_true_r.
Qed.

Lemma has_slash_of_list (l : list ascii) :
  has_slash (string_of_list_ascii l) = existsb is_slash l.
Proof. induction l as [|c l IH]; simpl; [|rewrite IH]; reflexivity. Qed.

Lemma until_slash_clean (l : list ascii) :
  existsb is_slash (until_slash l) = false.
Proof.
  induction l as [|c l IH]; simpl; [reflexivity|].
  destruct (is_slash c) eqn:Hc; simpl; [reflexivity|].
  rewrite Hc, IH. reflexivity.
Qed.

Lemma existsb_reverse {A} (f : A → bool) (l : list A) :
  existsb f (rev l) = existsb f l.
Proof.
  induction l as [|a l IH]; simpl; [reflexivity|].
  rewrite existsb_app, IH. simpl. rewrite orb_false_r. apply orb_comm.
Qed.

(** A base name holds no separator. *)
Lemma basename_no_slash (p : string) : has_slash (basename p) = false.
Proof.
  unfold basename. rewrite has_slash_of_list.
  rewrite existsb_reverse. apply until_slash_clean.
Qed.

Lemma length_app_string (s t : string) :
  String.length (s +:+ t) = String.length s + String.length t.
Proof. induction s as [|c s IH]; simpl; [|rewrite IH]; reflexivity. Qed.

Lemma append_tmp_differs (p : string) : p +:+ ".tmp" ≠ p.
Proof.
  intros Heq. apply (f_equal String.length) in Heq.
  rewrite length_app_string in Heq. simpl in Heq. lia.
Qed.

Lemma prefix_empty (s : string) : String.prefix "" s = true.
Proof. destruct s; reflexivity. Qed.

Lemma prefix_app (t s b : string) :
  String.prefix t s = true → String.prefix t (s +:+ b) = true.
Proof.
  revert s. induction t as [|c t IH]; intros s Hp; [apply prefix_empty|].
  destruct s as [|d s]; simpl in *; [discriminate|].
  destruct (ascii_dec c d); [auto|discriminate].
Qed.

Lemma includes_app (s t b : string) :
  includes s t = true → includes (s +:+ b) t = true.
Proof.
  induction s as [|c s IH]; simpl; intros Hi.
  - destruct t; [|discriminate]. destruct b; reflexivity.
  - apply orb_true_iff in Hi as [Hp|Hi]; apply orb_true_iff.
    + left. apply (prefix_app t (String c s) b Hp).
    + right. auto.
Qed.

Lemma photos_url_folder (b : string) :
  folder_of_url ("/uploads/photos/" +:+ b) = Some "photos".
Proof.
  unfold folder_of_url. rewrite includes_app; reflexivity.
Qed.

Lemma videos_url_folder (b : string) :
  has_slash b = false → folder_of_url ("/uploads/videos/" +:+ b) = Some "videos".
Proof.
  intros Hb. unfold folder_of_url.
  destruct (includes ("/uploads/videos/" +:+ b) "/photos/") eqn:Hp.
  - simpl in Hp. change ("" +:+ b) with b in Hp. apply orb_true_iff in Hp as [Hp|Hp].
    + apply prefix_has_slash in Hp; [congruence|reflexivity].
    + apply includes_has_slash in Hp; [congruence|reflexivity].
  - rewrite includes_app; reflexivity.
Qed.

Lemma audio_url_folder (b : string) :
  has_slash b = false → folder_of_url ("/uploads/audio/" +:+ b) = Some "audio".
Proof.
  intros Hb. unfold folder_of_url.
  destruct (includes ("/uploads/audio/" +:+ b) "/photos/") eqn:Hp.
  { simpl in Hp. change ("" +:+ b) with b in Hp. apply orb_true_iff in Hp as [Hp|Hp].
    - apply prefix_has_slash in Hp; [congruence|reflexivity].
    - apply includes_has_slash in Hp; [congruence|reflexivity]. }
  destruct (includes ("/uploads/audio/" +:+ b) "/videos/") eqn:Hv.
  { simpl in Hv. change ("" +:+ b) with b in Hv. apply orb_true_iff in Hv as [Hv|Hv].
    - apply prefix_has_slash in Hv; [congruence|reflexivity].
    - apply includes_has_slash in Hv; [congruence|reflexivity]. }
  rewrite includes_app; reflexivity.
Qed.

Lemma startsWith_exclusive (m : string) (c d : ascii) (t u : string) :
  startsWith m (String c t) = true → c ≠ d →
  startsWith m (String d u) = false.
Proof.
  unfold startsWith. intros Hm Hcd. revert Hm.
  destruct m as [|a m]; simpl; [discriminate|].
  destruct (ascii_dec c a) as [->|]; [|discriminate].
  destruct (ascii_dec d a) as [->|]; [congruence|reflexivity].
Qed.

(** ** Properties of the upload service *)

Section upload_properties.
Context {rt : Runtime} {tools : MediaTools}.

Import UploadService.

Lemma processImage_produces (file : UploadedFile) (fs : FS) :
  produces (processImage file fs) "photo"
    ("/uploads/photos/" +:+ basename (path file)).
Proof.
  intros p fs'. unfold processImage. rewrite try_catch_rethrow.
  unfold bind, sharp, unlinkSync, renameSync, statSync_size, ret.
  repeat case_match; intros; simplify_eq; simpl; auto.
Qed.

Lemma processImage_returns (file : UploadedFile) (fs : FS)
    (tsz osz sz0 : float) :
  fs !! path file = Some (File sz0) →
  image_encodings_succeed file fs tsz osz →
  ∃ fs',
    processImage file fs =
      (Returned {| type := "photo";
                   url := "/uploads/photos/" +:+ basename (path file);
                   thumbnail :=
                     Some ("/uploads/thumbnails/thumb_"
                             +:+ basename (path file));
                   size := osz |}, fs').
Proof.
  intros Hfile [Hthumb Hopt]. cbv zeta in Hthumb, Hopt.
  set (thumbnailPath :=
         path_join [__dirname; "../uploads/thumbnails";
                    "thumb_" +:+ basename (path file)]) in *.
  unfold processImage. rewrite try_catch_rethrow.
  fold thumbnailPath.
  pose proof (append_tmp_differs (path file)) as Htmp.
  unfold bind, sharp. rewrite Hthumb, Hopt.
  set (fs2 := <[path file +:+ ".tmp" := File osz]>
                (<[thumbnailPath := File tsz]> fs)).
  assert (Hprimary : ∃ s, fs2 !! path file = Some (File s)).
  { unfold fs2. rewrite lookup_insert_ne by done.
    destruct (decide (thumbnailPath = path file)) as [->|Hne].
    - rewrite lookup_insert_eq. eauto.
    - rewrite lookup_insert_ne by done. eauto. }
  destruct Hprimary as [s Hs].
  unfold unlinkSync. rewrite Hs.
  unfold renameSync.
  rewrite lookup_delete_ne by done. unfold fs2 at 1.
  rewrite lookup_insert_eq, lookup_delete_eq.
  unfold statSync_size. rewrite lookup_insert_eq. eauto.
Qed.

Lemma processVideo_produces (file : UploadedFile) (fs : FS) :
  produces (processVideo file fs) "video"
    ("/uploads/videos/" +:+ basename (path file)).
Proof.
  intros p fs'. unfold processVideo, in_handler, bind, statSync_size, ret.
  repeat case_match; intros; simplify_eq; simpl; auto.
Qed.

(** Frame extraction fails: the proof is returned without thumbnail and the
    disk is as it was. *)
Lemma processVideo_on_error (file : UploadedFile) (fs : FS)
    (err : JsError) (n : node) :
  ffmpeg_screenshots fs (path file)
    (path_join [__dirname; "../uploads/thumbnails"])
    ("thumb_" +:+ basename (path file) +:+ ".jpg") = FfError err →
  fs !! path file = Some n →
  processVideo file fs =
    (Returned {| type := "video";
                 url := "/uploads/videos/" +:+ basename (path file);
                 thumbnail := None;
                 size := node_size n |}, fs).
Proof.
  intros Hff Hfile. unfold processVideo. rewrite Hff.
  unfold in_handler, bind, statSync_size, ret. rewrite Hfile. reflexivity.
Qed.

(** Unless ffmpeg throws before any event, the proof of a video that is on
    disk is returned, with or without thumbnail. *)
Lemma processVideo_returns (file : UploadedFile) (fs : FS) (n : node) :
  fs !! path file = Some n →
  (∀ e, ffmpeg_screenshots fs (path file)
          (path_join [__dirname; "../uploads/thumbnails"])
          ("thumb_" +:+ basename (path file) +:+ ".jpg") ≠ FfThrows e) →
  ∃ p fs', processVideo file fs = (Returned p, fs').
Proof.
  intros Hfile Hnothrow. unfold processVideo.
  destruct (ffmpeg_screenshots _ _ _ _) as [tsz|err|e] eqn:Hff.
  - unfold in_handler, bind, statSync_size, ret.
    destruct (decide (path_join
                        [path_join [__dirname; "../uploads/thumbnails"];
                         "thumb_" +:+ basename (path file) +:+ ".jpg"]
                      = path file)) as [Heq|Hne].
    + rewrite Heq, lookup_insert_eq. eauto.
    + rewrite lookup_insert_ne, Hfile by done. eauto.
  - unfold in_handler, bind, statSync_size, ret. rewrite Hfile. eauto.
  - destruct (Hnothrow e). reflexivity.
Qed.

Lemma processAudio_produces (file : UploadedFile) (fs : FS) :
  produces (processAudio file fs) "audio"
    ("/uploads/audio/" +:+ basename (path file)).
Proof.
  intros p fs'. unfold processAudio. rewrite try_catch_rethrow.
  unfold bind, statSync_size, ret.
  repeat case_match; intros; simplify_eq; simpl; auto.
Qed.

Lemma processAudio_returns (file : UploadedFile) (fs : FS) (n : node) :
  fs !! path file = Some n →
  processAudio file fs =
    (Returned {| type := "audio";
                 url := "/uploads/audio/" +:+ basename (path file);
                 thumbnail := Some "/uploads/thumbnails/audio_default.png";
                 size := node_size n |}, fs).
Proof.
  intros Hfile. unfold processAudio. rewrite try_catch_rethrow.
  unfold bind, statSync_size, ret. rewrite Hfile. reflexivity.
Qed.

Lemma processFile_image (file : UploadedFile) (fs : FS) :
  startsWith (mimetype file) "image/" = true →
  processFile file fs = processImage file fs.
Proof.
  intros Hm. unfold processFile. rewrite try_catch_rethrow, Hm. reflexivity.
Qed.

Lemma processFile_video (file : UploadedFile) (fs : FS) :
  startsWith (mimetype file) "video/" = true →
  processFile file fs = processVideo file fs.
Proof.
  intros Hm. unfold processFile. rewrite try_catch_rethrow, Hm.
  rewrite (startsWith_exclusive _ _ "i" _ "mage/" Hm) by done.
  reflexivity.
Qed.

Lemma processFile_audio (file : UploadedFile) (fs : FS) :
  startsWith (mimetype file) "audio/" = true →
  processFile file fs = processAudio file fs.
Proof.
  intros Hm. unfold processFile. rewrite try_catch_rethrow, Hm.
  rewrite (startsWith_exclusive _ _ "i" _ "mage/" Hm) by done.
  rewrite (startsWith_exclusive _ _ "v" _ "ideo/" Hm) by done.
  reflexivity.
Qed.

Lemma processFile_unsupported (file : UploadedFile) (fs : FS) :
  startsWith (mimetype file) "image/" = false →
  startsWith (mimetype file) "video/" = false →
  startsWith (mimetype file) "audio/" = false →
  processFile file fs =
    (Thrown (mkError "Type de fichier non pris en charge"), fs).
Proof.
  intros Hi Hv Ha. unfold processFile. rewrite try_catch_rethrow, Hi, Hv, Ha.
  reflexivity.
Qed.

(** C5. [processFile] dispatches on the prefix of the declared MIME type
    alone: an "image/" file is handled by [processImage] and every proof it
    returns has type "photo" and a URL under /uploads/photos/; a "video/"
    file by [processVideo], type "video", URL under /uploads/videos/; an
    "audio/" file by [processAudio], type "audio", URL under
    /uploads/audio/; a file of any other MIME type makes it throw "Type de
    fichier non pris en charge" and leaves the disk as it was. Hence the
    folder the URL of a returned proof resolves into is the folder of its
    type. The proof is returned whenever the file is on disk and the tool
    of its kind does its work: both encodings for an image, no exception
    thrown by ffmpeg for a video, nothing more for audio. *)
Theorem processFile_dispatch (file : UploadedFile) (fs : FS) :
  (startsWith (mimetype file) "image/" = true →
   processFile file fs = processImage file fs ∧
   produces (processFile file fs) "photo"
     ("/uploads/photos/" +:+ basename (path file)) ∧
   (∀ sz0 tsz osz,
      fs !! path file = Some (File sz0) →
      image_encodings_succeed file fs tsz osz →
      ∃ p fs', processFile file fs = (Returned p, fs'))) ∧
  (startsWith (mimetype file) "video/" = true →
   processFile file fs = processVideo file fs ∧
   produces (processFile file fs) "video"
     ("/uploads/videos/" +:+ basename (path file)) ∧
   (∀ n, fs !! path file = Some n →
      (∀ e, ffmpeg_screenshots fs (path file)
              (path_join [__dirname; "../uploads/thumbnails"])
              ("thumb_" +:+ basename (path file) +:+ ".jpg") ≠ FfThrows e) →
      ∃ p fs', processFile file fs = (Returned p, fs'))) ∧
  (startsWith (mimetype file) "audio/" = true →
   processFile file fs = processAudio file fs ∧
   produces (processFile file fs) "audio"
     ("/uploads/audio/" +:+ basename (path file)) ∧
   (∀ n, fs !! path file = Some n →
      ∃ p fs', processFile file fs = (Returned p, fs'))) ∧
  (startsWith (mimetype file) "image/" = false →
   startsWith (mimetype file) "video/" = false →
   startsWith (mimetype file) "audio/" = false →
   processFile file fs =
     (Thrown (mkError "Type de fichier non pris en charge"), fs)) ∧
  (∀ p fs', processFile file fs = (Returned p, fs') →
            is_Some (folder_of_type (type p)) ∧
            folder_of_url (url p) = folder_of_type (type p)).
Proof.
  split_and!.
  - intros Hm. rewrite (processFile_image _ _ Hm).
    split_and!; [reflexivity|apply processImage_produces|].
    intros sz0 tsz osz Hfile Henc.
    destruct (processImage_returns _ _ _ _ _ Hfile Henc) as [fs' ->]. eauto.
  - intros Hm. rewrite (processFile_video _ _ Hm).
    split_and!; [reflexivity|apply processVideo_produces|].
    intros n Hfile Hnothrow. apply (processVideo_returns _ _ _ Hfile Hnothrow).
  - intros Hm. rewrite (processFile_audio _ _ Hm).
    split_and!; [reflexivity|apply processAudio_produces|].
    intros n Hn. rewrite (processAudio_returns _ _ _ Hn). eauto.
  - apply processFile_unsupported.
  - intros p fs' Hp.
    pose proof (basename_no_slash (path file)) as Hb.
    destruct (startsWith (mimetype file) "image/") eqn:Hi.
    { rewrite (processFile_image _ _ Hi) in Hp.
      destruct (processImage_produces _ _ _ _ Hp) as [-> ->].
      rewrite photos_url_folder. split; [eexists|]; reflexivity. }
    destruct (startsWith (mimetype file) "video/") eqn:Hv.
    { rewrite (processFile_video _ _ Hv) in Hp.
      destruct (processVideo_produces _ _ _ _ Hp) as [-> ->].
      rewrite (videos_url_folder _ Hb). split; [eexists|]; reflexivity. }
    destruct (startsWith (mimetype file) "audio/") eqn:Ha.
    { rewrite (processFile_audio _ _ Ha) in Hp.
      destruct (processAudio_produces _ _ _ _ Hp) as [-> ->].
      rewrite (audio_url_folder _ Hb). split; [eexists|]; reflexivity. }
    rewrite (processFile_unsupported _ _ Hi Hv Ha) in Hp. discriminate.
Qed.

(** The end of [deleteFile]: remove the primary file if it exists. *)
Lemma unlink_if_exists_absent (filePath : string) (fs : FS) :
  fs !! filePath = None →
  (let* present := existsSync filePath in
   if present : bool then let* _ := unlinkSync filePath in ret true
   else ret false) fs = (Returned false, fs).
Proof.
  intros Hnone. unfold bind, existsSync. rewrite Hnone.
  rewrite bool_decide_eq_false_2 by (intros [? ?]; discriminate).
  reflexivity.
Qed.

Lemma unlink_if_exists_file (filePath : string) (fs : FS) (sz : float) :
  fs !! filePath = Some (File sz) →
  (let* present := existsSync filePath in
   if present : bool then let* _ := unlinkSync filePath in ret true
   else ret false) fs = (Returned true, delete filePath fs).
Proof.
  intros Hfile. unfold bind, existsSync. rewrite Hfile.
  rewrite bool_decide_eq_true_2 by eauto.
  unfold unlinkSync. rewrite Hfile. reflexivity.
Qed.

(** The thumbnail step: [if (fs.existsSync(t)) fs.unlinkSync(t)]. *)
Lemma unlink_thumbnail_dir (t : string) (fs : FS) (sz : float) :
  fs !! t = Some (Dir sz) →
  ∃ e, (let* present := existsSync t in
        if present : bool then unlinkSync t else ret tt) fs = (Thrown e, fs).
Proof.
  intros Hdir. unfold bind, existsSync. rewrite Hdir.
  rewrite bool_decide_eq_true_2 by eauto.
  unfold unlinkSync. rewrite Hdir. eauto.
Qed.

Lemma unlink_thumbnail_ok (t : string) (fs : FS) :
  (∀ sz, fs !! t ≠ Some (Dir sz)) →
  (let* present := existsSync t in
   if present : bool then unlinkSync t else ret tt) fs
  = (Returned tt, delete t fs).
Proof.
  intros Hnodir. unfold bind, existsSync.
  destruct (fs !! t) as [[sz|sz]|] eqn:Ht.
  - rewrite bool_decide_eq_true_2 by eauto.
    unfold unlinkSync. rewrite Ht. reflexivity.
  - destruct (Hnodir sz). reflexivity.
  - rewrite bool_decide_eq_false_2 by (intros [? ?]; discriminate).
    unfold ret. rewrite delete_id by done. reflexivity.
Qed.

Lemma deleteFile_with_thumbnail (primary thumb : string) (fs : FS) :
  deletes_with_thumbnail
    ((let* filePath :=
        (let* present := existsSync thumb in
         let* _ := if present : bool then unlinkSync thumb else ret tt in
         ret primary) in
      let* present := existsSync filePath in
      if present : bool then let* _ := unlinkSync filePath in ret true
      else ret false) fs)
    fs primary thumb.
Proof.
  split.
  - intros sz Hdir. destruct (unlink_thumbnail_dir _ _ _ Hdir) as [e He].
    exists e. revert He. unfold bind, existsSync.
    destruct (bool_decide _); [|discriminate].
    destruct (unlinkSync thumb fs) as [[[]|e'|] fs']; simpl; congruence.
  - intros Hnodir. pose proof (unlink_thumbnail_ok _ _ Hnodir) as Hok.
    assert (Hstep :
      (let* present := existsSync thumb in
       let* _ := if present : bool then unlinkSync thumb else ret tt in
       ret primary) fs = (Returned primary, delete thumb fs)).
    { revert Hok. unfold bind, existsSync, ret.
      destruct (bool_decide _).
      - destruct (unlinkSync thumb fs) as [[[]|e'|] fs']; simpl; congruence.
      - congruence. }
    split.
    + intros Hnone. rewrite (bind_returned _ _ _ _ _ Hstep).
      apply unlink_if_exists_absent.
      destruct (decide (thumb = primary)) as [->|Hne].
      * apply lookup_delete_eq.
      * rewrite lookup_delete_ne by done. exact Hnone.
    + intros sz Hfile. rewrite (bind_returned _ _ _ _ _ Hstep).
      apply (unlink_if_exists_file _ _ sz Hfile).
Qed.

(** C6, as amended. [deleteFile] locates the asset by the first folder
    marker its URL contains, tried in the order /photos/, /videos/,
    /audio/. With none of them it throws "Type de fichier non reconnu" and
    the disk is untouched. For a photo (thumbnail [thumb_<name>]) and for a
    video (thumbnail [thumb_<name>.jpg]) the thumbnail is unlinked first
    when it exists; if that unlink fails the call throws and nothing more
    is deleted; otherwise the call returns false when the primary file does
    not exist and true after unlinking it. An audio asset has no
    thumbnail. *)
Theorem deleteFile_resolution (fileUrl : string) (fs : FS) :
  let fileName := basename fileUrl in
  (includes fileUrl "/photos/" = false →
   includes fileUrl "/videos/" = false →
   includes fileUrl "/audio/" = false →
   deleteFile fileUrl fs =
     (Thrown (mkError "Type de fichier non reconnu"), fs)) ∧
  (includes fileUrl "/photos/" = true →
   deletes_with_thumbnail (deleteFile fileUrl fs) fs
     (path_join [__dirname; "../uploads/photos"; fileName])
     (path_join [__dirname; "../uploads/thumbnails";
                 "thumb_" +:+ fileName])) ∧
  (includes fileUrl "/photos/" = false →
   includes fileUrl "/videos/" = true →
   deletes_with_thumbnail (deleteFile fileUrl fs) fs
     (path_join [__dirname; "../uploads/videos"; fileName])
     (path_join [__dirname; "../uploads/thumbnails";
                 "thumb_" +:+ fileName +:+ ".jpg"])) ∧
  (includes fileUrl "/photos/" = false →
   includes fileUrl "/videos/" = false →
   includes fileUrl "/audio/" = true →
   deletes_alone (deleteFile fileUrl fs) fs
     (path_join [__dirname; "../uploads/audio"; fileName])).
Proof.
  intros fileName. split_and!.
  - intros Hp Hv Ha. unfold deleteFile. rewrite try_catch_rethrow.
    rewrite Hp, Hv, Ha. reflexivity.
  - intros Hp. unfold deleteFile. rewrite try_catch_rethrow, Hp.
    apply deleteFile_with_thumbnail.
  - intros Hp Hv. unfold deleteFile. rewrite try_catch_rethrow, Hp, Hv.
    apply deleteFile_with_thumbnail.
  - intros Hp Hv Ha. unfold deleteFile. rewrite try_catch_rethrow.
    rewrite Hp, Hv, Ha. fold fileName.
    set (primary := path_join [__dirname; "../uploads/audio"; fileName]).
    split.
    + intros Hnone.
      rewrite (bind_returned (ret primary) _ fs primary fs eq_refl).
      apply unlink_if_exists_absent, Hnone.
    + intros sz Hfile.
      rewrite (bind_returned (ret primary) _ fs primary fs eq_refl).
      apply (unlink_if_exists_file _ _ sz Hfile).
Qed.

End upload_properties.


(** ** Properties of the alert controller *)

Section controller_properties.
Context {rt : Runtime} {tools : MediaTools} {Db : Type}
  {svc : AlertService Db}.

Import AlertController.

Lemma answered_spec (c : Call) (m : M Db jsval) (ok : jsval → Response)
    (fallback : string) (w : World Db) :
  try_catch (let* v := call_service c m in ret (ok v))
    (fun error => ret (failure 400 (str_or (message error) fallback))) w
  = answered c m ok fallback w.
Proof.
  unfold try_catch, bind, call_service, answered, ret.
  destruct (m (db w)) as [[v|e|] db']; reflexivity.
Qed.

(** The loop leaves the store and the record of calls alone. *)
Lemma processFiles_frame (fl : list UploadedFile) (acc : list jsval)
    (w w' : World Db) (r : outcome (list jsval)) :
  processFiles fl acc w = (r, w') → db w' = db w ∧ calls w' = calls w.
Proof.
  revert acc w. induction fl as [|file rest IH]; intros acc w; simpl.
  - unfold ret. intros [= <- <-]. auto.
  - unfold bind at 1, on_disk.
    destruct (UploadService.processFile file (disk w)) as [[p|e|] fs1].
    + intros Hrest. apply IH in Hrest. simpl in Hrest. exact Hrest.
    + intros [= <- <-]. auto.
    + intros [= <- <-]. auto.
Qed.

Lemma processFiles_processed (fl : list UploadedFile) (ps : list Proof)
    (fs' : FS) (acc : list jsval) (w : World Db) :
  processed_all (disk w) fl ps fs' →
  processFiles fl acc w =
    (Returned (acc ++ (proof_js <$> ps)),
     {| disk := fs'; db := db w; calls := calls w |}).
Proof.
  intros Hall. remember (disk w) as fs eqn:Hfs.
  revert acc w Hfs.
  induction Hall as [fs|fs file p fs1 rest ps fs2 Hfile Hrest IH];
    intros acc w ->; simpl.
  - unfold ret. rewrite app_nil_r. destruct w; reflexivity.
  - unfold bind at 1, on_disk. rewrite Hfile.
    rewrite (IH _ {| disk := fs1; db := db w; calls := calls w |} eq_refl).
    simpl. rewrite <- app_assoc. reflexivity.
Qed.

Lemma processFiles_app (l1 l2 : list UploadedFile) (acc : list jsval)
    (w : World Db) :
  processFiles (l1 ++ l2) acc w =
    (let* acc' := processFiles l1 acc in processFiles l2 acc') w.
Proof.
  revert acc w. induction l1 as [|file rest IH]; intros acc w; simpl.
  - reflexivity.
  - unfold bind.
    destruct (on_disk (UploadService.processFile file) w) as [[p|e|] w1];
      [|reflexivity|reflexivity].
    rewrite IH. reflexivity.
Qed.

(** The coordinate check lets exactly the two-element arrays through. *)
Lemma coordinates_guard_pair (a b : jsval) :
  negb (truthy (JArr [a; b])) || negb (isArray (JArr [a; b]))
  || length_differs (JArr [a; b]) 2 = false.
Proof. reflexivity. Qed.

Lemma coordinates_guard_other (v : jsval) :
  (∀ a b, v ≠ JArr [a; b]) →
  negb (truthy v) || negb (isArray v) || length_differs v 2 = true.
Proof.
  intros Hv. destruct v as [| |c|n|s|l|o]; simpl;
    rewrite ?orb_true_r; try reflexivity.
  destruct l as [|a [|b [|c l]]]; try reflexivity.
  destruct (Hv a b). reflexivity.
Qed.

Lemma coordinates_shape (v : jsval) :
  (∃ a b, v = JArr [a; b]) ∨ (∀ a b, v ≠ JArr [a; b]).
Proof.
  destruct v as [| |c|n|s|l|o]; try (right; discriminate).
  destruct l as [|a [|b [|c l]]]; try (right; discriminate).
  left. eauto.
Qed.

(** [createAlert] with well-formed coordinates, by proof source. *)
Lemma createAlert_files (req : Request) (w : World Db) (a b : jsval)
    (file : UploadedFile) (rest : list UploadedFile) :
  prop (body req) "coordinates" = JArr [a; b] →
  files req = Some (file :: rest) →
  createAlert req w =
    match processFiles (file :: rest) [] w with
    | (Returned processed, w1) => persisted req (JArr processed) w1
    | (Thrown e, w1) =>
        (Returned (failure 400
                     (str_or (message e)
                        "Erreur lors de la création de l'alerte")), w1)
    | (Pending, w1) => (Pending, w1)
    end.
Proof.
  intros Hc Hf. pose proof (coordinates_guard_pair a b) as Hguard.
  rewrite <- Hc in Hguard. unfold createAlert. cbv zeta.
  rewrite Hguard, Hf, try_catch_bind. unfold bind at 1.
  destruct (processFiles (file :: rest) [] w) as [[processed|e|] w1];
    [|reflexivity|reflexivity].
  unfold ret at 1. cbv beta iota. apply answered_spec.
Qed.

Lemma createAlert_no_files (req : Request) (w : World Db) (a b : jsval) :
  prop (body req) "coordinates" = JArr [a; b] →
  files req = None ∨ files req = Some [] →
  createAlert req w =
    persisted req
      (match prop (body req) "proofs" with
       | JArr (x :: xs) => JArr (x :: xs)
       | _ => JArr []
       end) w.
Proof.
  intros Hc Hf. pose proof (coordinates_guard_pair a b) as Hguard.
  rewrite <- Hc in Hguard. unfold createAlert. cbv zeta.
  rewrite Hguard, try_catch_bind.
  assert (Hinline :
    (if truthy (prop (body req) "proofs")
        && isArray (prop (body req) "proofs")
        && length_positive (prop (body req) "proofs")
     then ret (prop (body req) "proofs") else ret (JArr []))
    = (ret (match prop (body req) "proofs" with
            | JArr (x :: xs) => JArr (x :: xs)
            | _ => JArr []
            end) : M (World Db) jsval)).
  { destruct (prop (body req) "proofs") as [| |c|n|s|[|x xs]|o]; simpl;
      try reflexivity; rewrite ?andb_false_r; reflexivity. }
  destruct Hf as [-> | ->]; rewrite Hinline; unfold ret at 1;
    cbv beta iota; apply answered_spec.
Qed.

Lemma createAlert_ignores_inline (req : Request) (w : World Db)
    (file : UploadedFile) (rest : list UploadedFile) (v : jsval) :
  files req = Some (file :: rest) →
  createAlert (with_inline_proofs v req) w = createAlert req w.
Proof.
  intros Hf. unfold createAlert, with_inline_proofs.
  cbn [body files user].
  assert (Hother : ∀ k, k ≠ "proofs" →
            prop (<["proofs" := v]> (body req)) k = prop (body req) k).
  { intros k Hk. unfold prop. rewrite lookup_insert_ne by done. reflexivity. }
  rewrite (Hother "serviceId"), (Hother "category"), (Hother "description"),
    (Hother "coordinates"), (Hother "address"), (Hother "isAnonymous")
    by done.
  rewrite Hf. reflexivity.
Qed.

(** C1. With well-formed coordinates, the proofs of the alert handed to
    the service come from one source, in this order. (a) At least one
    uploaded file: the files are processed by [processFile] one after the
    other and, when each returns its proof, the list of these proofs is the
    proof list; the inline [proofs] field plays no part, whatever it holds.
    (b) No uploaded file and an inline [proofs] field that is a non-empty
    array: that array as it is. (c) Otherwise: the empty list. *)
Theorem createAlert_proof_sources (req : Request) (w : World Db)
    (a b : jsval) :
  prop (body req) "coordinates" = JArr [a; b] →
  (∀ fl, files req = Some fl → fl ≠ [] →
     (∀ v, createAlert (with_inline_proofs v req) w = createAlert req w) ∧
     (∀ ps fs', processed_all (disk w) fl ps fs' →
        createAlert req w =
          persisted req (JArr (proof_js <$> ps))
            {| disk := fs'; db := db w; calls := calls w |})) ∧
  (files req = None ∨ files req = Some [] →
     (∀ x xs, prop (body req) "proofs" = JArr (x :: xs) →
        createAlert req w = persisted req (JArr (x :: xs)) w) ∧
     ((∀ x xs, prop (body req) "proofs" ≠ JArr (x :: xs)) →
        createAlert req w = persisted req (JArr []) w)).
Proof.
  intros Hc. split.
  - intros [|file rest] Hf Hne; [done|]. split.
    + intros v. apply (createAlert_ignores_inline _ _ _ _ _ Hf).
    + intros ps fs' Hall.
      rewrite (createAlert_files _ _ _ _ _ _ Hc Hf).
      rewrite (processFiles_processed _ _ _ [] _ Hall). reflexivity.
  - intros Hf. rewrite (createAlert_no_files _ _ _ _ Hc Hf). split.
    + intros x xs ->. reflexivity.
    + intros Hinline.
      destruct (prop (body req) "proofs") as [| |c|n|s|[|x xs]|o];
        try reflexivity.
      destruct (Hinline x xs). reflexivity.
Qed.

(** C2, as amended. A request whose [coordinates] field is absent, is not
    an array, or is an array of a length other than two is answered 400
    with the message of the coordinate check, and nothing else happens: no
    file is processed and the service is not called. *)
Theorem createAlert_rejects_malformed_coordinates (req : Request)
    (w : World Db) :
  body req !! "coordinates" = None
  ∨ isArray (prop (body req) "coordinates") = false
  ∨ (∃ l, prop (body req) "coordinates" = JArr l ∧ length l ≠ 2) →
  createAlert req w = (Returned (failure 400 coordinates_required), w).
Proof.
  intros Hbad.
  assert (Hguard : ∀ x y, prop (body req) "coordinates" ≠ JArr [x; y]).
  { intros x y Heq. destruct Hbad as [Habs|[Harr|(l & Hl & Hlen)]].
    - unfold prop in Heq. rewrite Habs in Heq. discriminate.
    - rewrite Heq in Harr. discriminate.
    - rewrite Heq in Hl. injection Hl as <-. apply Hlen. reflexivity. }
  apply coordinates_guard_other in Hguard.
  unfold createAlert. cbv zeta. rewrite Hguard. reflexivity.
Qed.

(** C9. When processing one of the uploaded files throws, the files before
    it having returned their proofs, the creation is answered 400 and the
    service is never called: the store and the record of calls are as they
    were. *)
Theorem createAlert_processing_failure (req : Request) (w w1 w2 : World Db)
    (pre post : list UploadedFile) (file : UploadedFile)
    (processed : list jsval) (e : JsError) :
  files req = Some (pre ++ file :: post) →
  processFiles pre [] w = (Returned processed, w1) →
  on_disk (UploadService.processFile file) w1 = (Thrown e, w2) →
  ∃ msg w',
    createAlert req w = (Returned (failure 400 msg), w') ∧
    db w' = db w ∧ calls w' = calls w.
Proof.
  intros Hf Hpre Hfile.
  destruct (coordinates_shape (prop (body req) "coordinates"))
    as [(x & y & Hc)|Hbad].
  - assert (Hloop : processFiles (pre ++ file :: post) [] w = (Thrown e, w2)).
    { rewrite processFiles_app. unfold bind at 1. rewrite Hpre. simpl.
      unfold bind at 1. rewrite Hfile. reflexivity. }
    destruct (pre ++ file :: post) as [|f fl] eqn:Hfl;
      [destruct pre; discriminate|].
    rewrite (createAlert_files _ _ _ _ _ _ Hc Hf), Hloop.
    apply processFiles_frame in Hloop as [Hdb Hcalls]. eauto.
  - exists coordinates_required, w. split; [|done].
    unfold createAlert. cbv zeta.
    rewrite (coordinates_guard_other _ Hbad). reflexivity.
Qed.

Lemma processed_all_app (fs0 fs1 fs2 : FS) (l1 l2 : list UploadedFile)
    (ps1 ps2 : list Proof) :
  processed_all fs0 l1 ps1 fs1 →
  processed_all fs1 l2 ps2 fs2 →
  processed_all fs0 (l1 ++ l2) (ps1 ++ ps2) fs2.
Proof.
  induction 1 as [fs|fs file p fs' rest ps fs'' Hfile Hrest IH]; intros Hl2.
  - exact Hl2.
  - simpl. eapply processed_cons; [exact Hfile|]. apply IH, Hl2.
Qed.

Lemma persisted_returns (req : Request) (proofs alert : jsval)
    (w : World Db) (db' : Db) :
  alertService_createAlert (request_alertData req proofs)
    (request_citizenId req) (db w) = (Returned alert, db') →
  persisted req proofs w =
    (Returned (created alert),
     {| disk := disk w; db := db';
        calls := calls w ++ [CallCreateAlert (request_alertData req proofs)
                               (request_citizenId req)] |}).
Proof. intros Hsvc. unfold persisted, answered. rewrite Hsvc. reflexivity. Qed.

(** C4. A video file whose frame extraction fails (ffmpeg emits 'error'),
    the uploaded file being on disk: [processFile] does not fail, it returns
    the proof of type "video" with the URL of the primary asset, its size
    and no thumbnail, and leaves the disk as it is. A creation whose files
    include it, the others being processed, therefore reaches the service
    with that degraded proof in its place, and is answered 201 once the
    service has stored the alert. *)
Theorem video_thumbnail_failure_degrades (file : UploadedFile) (fs : FS)
    (err : JsError) (n : node) :
  startsWith (mimetype file) "video/" = true →
  ffmpeg_screenshots fs (path file)
    (path_join [__dirname; "../uploads/thumbnails"])
    ("thumb_" +:+ basename (path file) +:+ ".jpg") = FfError err →
  fs !! path file = Some n →
  let degraded :=
    {| type := "video";
       url := "/uploads/videos/" +:+ basename (path file);
       thumbnail := None;
       size := node_size n |} in
  UploadService.processFile file fs = (Returned degraded, fs) ∧
  ∀ (req : Request) (w : World Db) (a b : jsval)
    (pre post : list UploadedFile) (ps1 ps2 : list Proof) (fs' : FS),
    prop (body req) "coordinates" = JArr [a; b] →
    files req = Some (pre ++ file :: post) →
    processed_all (disk w) pre ps1 fs →
    processed_all fs post ps2 fs' →
    let proofs := JArr (proof_js <$> ps1 ++ degraded :: ps2) in
    let w' := {| disk := fs'; db := db w; calls := calls w |} in
    createAlert req w = persisted req proofs w' ∧
    ∀ alert db',
      alertService_createAlert (request_alertData req proofs)
        (request_citizenId req) (db w) = (Returned alert, db') →
      createAlert req w =
        (Returned (created alert),
         {| disk := fs'; db := db';
            calls := calls w ++ [CallCreateAlert
                                   (request_alertData req proofs)
                                   (request_citizenId req)] |}).
Proof.
  intros Hm Hff Hfile degraded.
  assert (Hdeg : UploadService.processFile file fs = (Returned degraded, fs)).
  { rewrite (processFile_video _ _ Hm).
    apply (processVideo_on_error _ _ _ _ Hff Hfile). }
  split; [exact Hdeg|].
  intros req w a b pre post ps1 ps2 fs' Hc Hf Hpre Hpost proofs w'.
  assert (Hall : processed_all (disk w) (pre ++ file :: post)
                   (ps1 ++ degraded :: ps2) fs').
  { eapply processed_all_app; [exact Hpre|].
    eapply processed_cons; [exact Hdeg|exact Hpost]. }
  assert (Hcreate : createAlert req w = persisted req proofs w').
  { destruct (pre ++ file :: post) as [|f fl] eqn:Hfl;
      [destruct pre; discriminate|].
    rewrite (createAlert_files _ _ _ _ _ _ Hc Hf).
    rewrite (processFiles_processed _ _ _ [] _ Hall). reflexivity. }
  split; [exact Hcreate|].
  intros alert db' Hsvc. rewrite Hcreate.
  apply (persisted_returns req proofs alert w' db' Hsvc).
Qed.

Lemma updateAlertStatus_unauthorized (req : Request) (w : World Db) :
  missing (headers req !! "x-service-key")
  || key_differs (headers req !! "x-service-key") SERVICE_API_KEY = true →
  updateAlertStatus req w =
    (Returned (failure 401 "Authentification requise"), w).
Proof.
  intros Hkey. unfold updateAlertStatus. cbv zeta. rewrite Hkey. reflexivity.
Qed.

(** C7. A status update whose x-service-key header is absent, or differs
    from the configured secret, is answered 401 whatever its body holds;
    the world is as it was: the service is not called, no alert is read or
    changed. The key is checked before [alertId] and [status] are. *)
Theorem updateAlertStatus_requires_key (req : Request) (w : World Db) :
  headers req !! "x-service-key" = None
  ∨ headers req !! "x-service-key" ≠ SERVICE_API_KEY →
  updateAlertStatus req w =
    (Returned (failure 401 "Authentification requise"), w).
Proof.
  intros Hkey. apply updateAlertStatus_unauthorized.
  destruct (headers req !! "x-service-key") as [k|]; [|reflexivity].
  destruct Hkey as [Hkey|Hkey]; [discriminate|].
  apply orb_true_iff. right. unfold key_differs.
  destruct SERVICE_API_KEY as [k'|]; [|reflexivity].
  apply negb_true_iff, String.eqb_neq. congruence.
Qed.

(** C10. With [SERVICE_API_KEY] unset, every status update is answered
    401, with or without an x-service-key header and whatever its value;
    the service is never called. *)
Theorem updateAlertStatus_fails_closed (req : Request) (w : World Db) :
  SERVICE_API_KEY = None →
  updateAlertStatus req w =
    (Returned (failure 401 "Authentification requise"), w).
Proof.
  intros Hunset. apply updateAlertStatus_unauthorized. rewrite Hunset.
  destruct (headers req !! "x-service-key") as [k|]; [|reflexivity].
  apply orb_true_r.
Qed.

(** C8. [getAlertsNearby] answers 400, without calling the service, when
    the longitude or the latitude query parameter is missing (absent or
    empty). Otherwise it calls the service with the center
    [[parseFloat(longitude), parseFloat(latitude)]], longitude first, and
    with the radius [parseInt(distance)] when a distance is given, 5000
    when it is not; the answer is 200 with what the service returns. *)
Theorem getAlertsNearby_query (req : Request) (w : World Db) :
  (missing (query req !! "longitude") = true
   ∨ missing (query req !! "latitude") = true →
   getAlertsNearby req w =
     (Returned (failure 400
                  "Les coordonnées (longitude, latitude) sont requises"), w))
  ∧
  (∀ lon lat,
     query req !! "longitude" = Some lon → lon ≠ "" →
     query req !! "latitude" = Some lat → lat ≠ "" →
     let center := JArr [JNum (parseFloat lon); JNum (parseFloat lat)] in
     let asks radius :=
       getAlertsNearby req w =
         answered (CallGetAlertsNearby center radius)
           (alertService_getAlertsNearby center radius)
           found "Erreur lors de la recherche d'alertes à proximité" w in
     (∀ d, query req !! "distance" = Some d → d ≠ "" →
           asks (JNum (parseInt d))) ∧
     (missing (query req !! "distance") = true → asks (JNum 5000))).
Proof.
  split.
  - intros Hmissing. unfold getAlertsNearby. cbv zeta.
    replace (missing (query req !! "longitude")
             || missing (query req !! "latitude")) with true; [reflexivity|].
    symmetry. apply orb_true_iff. exact Hmissing.
  - intros lon lat Hlon Hlon' Hlat Hlat' center asks.
    apply String.eqb_neq in Hlon', Hlat'.
    assert (Hpresent : missing (query req !! "longitude")
                       || missing (query req !! "latitude") = false).
    { rewrite Hlon, Hlat. simpl. rewrite Hlon', Hlat'. reflexivity. }
    split.
    + intros d Hd Hd'. apply String.eqb_neq in Hd'.
      unfold asks, getAlertsNearby. cbv zeta.
      rewrite Hpresent, Hlon, Hlat, Hd. simpl missing. rewrite Hd'.
      apply answered_spec.
    + intros Hd. unfold asks, getAlertsNearby. cbv zeta.
      rewrite Hpresent, Hlon, Hlat, Hd. apply answered_spec.
Qed.

(** With well-formed coordinates, once the uploaded files (if any) are all
    processed, [createAlert] reaches the service. *)
Lemma createAlert_resolved (req : Request) (w : World Db) (a b : jsval)
    (ps : list Proof) (fs' : FS) :
  prop (body req) "coordinates" = JArr [a; b] →
  processed_all (disk w) (default [] (files req)) ps fs' →
  ∃ proofs,
    createAlert req w =
      persisted req proofs {| disk := fs'; db := db w; calls := calls w |}.
Proof.
  intros Hc Hall. destruct (files req) as [[|file rest]|] eqn:Hf; simpl in Hall.
  - inversion Hall; subst. eexists.
    rewrite (createAlert_no_files _ _ _ _ Hc (or_intror Hf)).
    destruct w; reflexivity.
  - exists (JArr (proof_js <$> ps)).
    rewrite (createAlert_files _ _ _ _ _ _ Hc Hf).
    rewrite (processFiles_processed _ _ _ [] _ Hall). reflexivity.
  - inversion Hall; subst. eexists.
    rewrite (createAlert_no_files _ _ _ _ Hc (or_introl Hf)).
    destruct w; reflexivity.
Qed.

End controller_properties.

(** ** The stored location, on the service of the design document *)

Lemma in_range_not_nan (lo x : float) :
  PrimFloat.leb lo x = true → PrimFloat.is_nan x = false.
Proof.
  unfold PrimFloat.is_nan. rewrite leb_spec, FloatAxioms.eqb_spec.
  unfold SFleb, SFeqb.
  destruct (Prim2SF x) as [s|s| |s m e].
  - reflexivity.
  - destruct s; reflexivity.
  - destruct (Prim2SF lo); discriminate.
  - intros _. simpl. rewrite Z.compare_refl.
    change (Pos.compare_cont Eq m m) with (Pos.compare m m).
    rewrite Pos.compare_refl. destruct s; reflexivity.
Qed.

Section spec_service_properties.
Context {rt : Runtime} {tools : MediaTools}.
Variable meters : jsval → jsval → float.

#[local] Instance spec_service : AlertService (list SpecAlertService.Alert) :=
  SpecAlertService.service meters.

Import AlertController.

(** C3. On the alert service of the design document: for coordinates
    [[lon, lat]] with lon in [-180, 180] and lat in [-90, 90], the uploaded
    files (if any) being processed, the creation is answered 201 with the
    stored alert, one alert is added to the store, and its location is
    [{ type: "Point", coordinates: [lon, lat] }], longitude first, the two
    numbers of the request body unchanged. *)
Theorem createAlert_location_roundtrip (req : Request)
    (w : World (list SpecAlertService.Alert)) (lon lat : float)
    (ps : list Proof) (fs' : FS) :
  prop (body req) "coordinates" = JArr [JNum lon; JNum lat] →
  PrimFloat.leb (-180) lon = true → PrimFloat.leb lon 180 = true →
  PrimFloat.leb (-90) lat = true → PrimFloat.leb lat 90 = true →
  processed_all (disk w) (default [] (files req)) ps fs' →
  ∃ alert added,
    createAlert req w =
      (Returned (created (SpecAlertService.alert_js alert)),
       {| disk := fs'; db := db w ++ [alert]; calls := calls w ++ [added] |})
    ∧ SpecAlertService.location alert =
        JObj [("type", JStr "Point");
              ("coordinates", JArr [JNum lon; JNum lat])].
Proof.
  intros Hc Hlon _ Hlat _ Hall.
  destruct (createAlert_resolved _ _ _ _ _ _ Hc Hall) as [proofs ->].
  apply in_range_not_nan in Hlon, Hlat.
  unfold persisted, answered. cbn [db disk calls].
  cbn [alertService_createAlert spec_service SpecAlertService.service].
  unfold SpecAlertService.createAlert, request_alertData.
  rewrite Hc, Hlon, Hlat. cbn [orb].
  eexists _, _. split; reflexivity.
Qed.

End spec_service_properties.

(** ** The statements at concrete requests *)

Section examples.
Import AlertController.

#[local] Existing Instance Fixture.tools_ok.
#[local] Instance fixture_service
  : AlertService (list SpecAlertService.Alert) :=
  SpecAlertService.service Fixture.flat.

(** Uploaded photo and inline proofs together: the processed photo is the
    proof list. *)
Lemma createAlert_proof_sources_witness :
  let rt := Fixture.runtime (Some Fixture.secret) in
  let req :=
    Fixture.request
      {[ "coordinates" := Fixture.coords; "proofs" := Fixture.inline ]}
      (Some [Fixture.photo]) in
  ∃ fs',
    createAlert req Fixture.world0 =
      persisted req (JArr [proof_js Fixture.photo_proof])
        {| disk := fs'; db := []; calls := [] |}.
Proof.
  intros rt req.
  exists (snd (UploadService.processFile Fixture.photo Fixture.disk0)).
  destruct (createAlert_proof_sources req Fixture.world0
              (JNum 2.35) (JNum 48.85)) as [Hfiles _];
    [vm_compute; reflexivity|].
  destruct (Hfiles [Fixture.photo] eq_refl) as [_ Hprocessed];
    [discriminate|].
  apply (Hprocessed [Fixture.photo_proof]).
  eapply processed_cons; [|apply processed_nil].
  vm_compute. reflexivity.
Defined.

(** No coordinates at all: answered 400, the world untouched. *)
Lemma createAlert_rejects_malformed_coordinates_witness :
  let rt := Fixture.runtime (Some Fixture.secret) in
  createAlert (Fixture.request ∅ (Some [Fixture.photo])) Fixture.world0 =
    (Returned (failure 400 coordinates_required), Fixture.world0).
Proof.
  intros rt. apply createAlert_rejects_malformed_coordinates.
  left. reflexivity.
Defined.

(** C2 as stated fails: the coordinates [["a", "b"]] are not two numbers,
    yet the controller lets them through and calls the alert service with
    them. (The service of the design document then refuses them, so the
    answer is 400 all the same: but the persistence layer was invoked.) *)
Lemma createAlert_forwards_nonnumeric_coordinates :
  let rt := Fixture.runtime (Some Fixture.secret) in
  let req :=
    Fixture.request {[ "coordinates" := JArr [JStr "a"; JStr "b"] ]} None in
  calls (snd (createAlert req Fixture.world0)) =
    [CallCreateAlert (request_alertData req (JArr [])) (JStr "citizen-42")]
  ∧ coordinates (request_alertData req (JArr [])) = JArr [JStr "a"; JStr "b"]
  ∧ calls (snd (createAlert req Fixture.world0)) ≠ calls Fixture.world0.
Proof.
  intros rt req. split_and!.
  - vm_compute. reflexivity.
  - vm_compute. reflexivity.
  - vm_compute. discriminate.
Qed.

(** Paris, no proof: stored as a Point, longitude first. *)
Lemma createAlert_location_roundtrip_witness :
  let rt := Fixture.runtime (Some Fixture.secret) in
  let req := Fixture.request {[ "coordinates" := Fixture.coords ]} None in
  ∃ alert added,
    createAlert req Fixture.world0 =
      (Returned (created (SpecAlertService.alert_js alert)),
       {| disk := Fixture.disk0; db := [alert]; calls := [added] |})
    ∧ SpecAlertService.location alert =
        JObj [("type", JStr "Point");
              ("coordinates", JArr [JNum 2.35; JNum 48.85])].
Proof.
  intros rt req.
  apply (createAlert_location_roundtrip Fixture.flat req Fixture.world0
           2.35 48.85 [] Fixture.disk0);
    try (vm_compute; reflexivity).
  apply processed_nil.
Defined.

(** A photo, then a document of an unsupported type: the photo is
    processed, the document makes the creation fail, nothing is stored. *)
Lemma createAlert_processing_failure_witness :
  let rt := Fixture.runtime (Some Fixture.secret) in
  let req :=
    Fixture.request {[ "coordinates" := Fixture.coords ]}
      (Some [Fixture.photo; Fixture.document]) in
  ∃ msg w',
    createAlert req Fixture.world0 = (Returned (failure 400 msg), w')
    ∧ db w' = [] ∧ calls w' = [].
Proof.
  intros rt req.
  apply (createAlert_processing_failure req Fixture.world0
           (snd (processFiles [Fixture.photo] [] Fixture.world0))
           (snd (processFiles [Fixture.photo] [] Fixture.world0))
           [Fixture.photo] [] Fixture.document
           [proof_js Fixture.photo_proof]
           (mkError "Type de fichier non pris en charge"));
    vm_compute; reflexivity.
Defined.

(** A wrong key with a valid body: 401. *)
Lemma updateAlertStatus_requires_key_witness :
  let rt := Fixture.runtime (Some Fixture.secret) in
  updateAlertStatus (Fixture.status_update (Some "guess")) Fixture.world0 =
    (Returned (failure 401 "Authentification requise"), Fixture.world0).
Proof.
  intros rt. apply updateAlertStatus_requires_key.
  right. vm_compute. discriminate.
Defined.

(** No secret configured: even a request without key header is refused,
    and so is one with a key. *)
Lemma updateAlertStatus_fails_closed_witness :
  let rt := Fixture.runtime None in
  updateAlertStatus (Fixture.status_update (Some Fixture.secret))
    Fixture.world0 =
    (Returned (failure 401 "Authentification requise"), Fixture.world0).
Proof.
  intros rt. apply updateAlertStatus_fails_closed. reflexivity.
Defined.

(** Around Paris within 1000 meters. *)
Lemma getAlertsNearby_query_witness :
  let rt := Fixture.runtime (Some Fixture.secret) in
  let req :=
    Fixture.nearby {[ "longitude" := "2.35"; "latitude" := "48.85";
                      "distance" := "1000" ]} in
  getAlertsNearby req Fixture.world0 =
    answered
      (CallGetAlertsNearby (JArr [JNum 2.35; JNum 48.85]) (JNum 1000))
      (alertService_getAlertsNearby (JArr [JNum 2.35; JNum 48.85])
         (JNum 1000))
      found "Erreur lors de la recherche d'alertes à proximité"
      Fixture.world0.
Proof.
  intros rt req.
  destruct (getAlertsNearby_query req Fixture.world0) as [_ Hquery].
  assert (Hlon : query req !! "longitude" = Some "2.35")
    by (vm_compute; reflexivity).
  assert (Hlat : query req !! "latitude" = Some "48.85")
    by (vm_compute; reflexivity).
  destruct (Hquery "2.35" "48.85" Hlon ltac:(discriminate)
              Hlat ltac:(discriminate)) as [Hdistance _].
  apply (Hdistance "1000"); [vm_compute; reflexivity|discriminate].
Defined.

End examples.

(** The examples of the upload service, with tools whose frame extraction
    fails. *)
Section upload_examples.
Import AlertController UploadService.

#[local] Existing Instance Fixture.tools_ffmpeg_error.
#[local] Instance fixture_service'
  : AlertService (list SpecAlertService.Alert) :=
  SpecAlertService.service Fixture.flat.

(** The video is kept, without thumbnail, and the alert is created. *)
Lemma video_thumbnail_failure_degrades_witness :
  let rt := Fixture.runtime (Some Fixture.secret) in
  let req :=
    Fixture.request {[ "coordinates" := Fixture.coords ]}
      (Some [Fixture.video]) in
  processFile Fixture.video Fixture.disk0 =
    (Returned Fixture.video_degraded, Fixture.disk0)
  ∧ ∃ alert w',
      createAlert req Fixture.world0 = (Returned (created alert), w')
      ∧ calls w' =
          [CallCreateAlert
             (request_alertData req
                (JArr [proof_js Fixture.video_degraded]))
             (JStr "citizen-42")].
Proof.
  intros rt req.
  destruct (video_thumbnail_failure_degrades (svc := fixture_service')
              Fixture.video Fixture.disk0
              (mkError "ffmpeg exited with code 1") (File 4000000))
    as [Hfile Hcreate]; try (vm_compute; reflexivity).
  split; [exact Hfile|].
  destruct (Hcreate req Fixture.world0 (JNum 2.35) (JNum 48.85)
              [] [] [] [] Fixture.disk0) as [_ Hstored];
    try (vm_compute; reflexivity); try apply processed_nil.
  eexists _, _. split.
  - apply Hstored. vm_compute. reflexivity.
  - reflexivity.
Defined.

(** The photo of the fixture: type "photo", stored under photos. *)
Lemma processFile_dispatch_witness :
  let rt := Fixture.runtime (Some Fixture.secret) in
  ∃ fs',
    processFile Fixture.photo Fixture.disk0 =
      (Returned Fixture.photo_proof, fs')
    ∧ folder_of_url (url Fixture.photo_proof) = Some "photos"
    ∧ processFile Fixture.document Fixture.disk0 =
        (Thrown (mkError "Type de fichier non pris en charge"),
         Fixture.disk0).
Proof.
  intros rt.
  exists (snd (processFile Fixture.photo Fixture.disk0)).
  assert (Hphoto : processFile Fixture.photo Fixture.disk0 =
                     (Returned Fixture.photo_proof,
                      snd (processFile Fixture.photo Fixture.disk0)))
    by (vm_compute; reflexivity).
  destruct (processFile_dispatch Fixture.photo Fixture.disk0)
    as (_ & _ & _ & _ & Hfolder).
  destruct (processFile_dispatch Fixture.document Fixture.disk0)
    as (_ & _ & _ & Hother & _).
  split_and!.
  - exact Hphoto.
  - destruct (Hfolder _ _ Hphoto) as [_ ->]. reflexivity.
  - apply Hother; reflexivity.
Defined.

(** C6 as stated fails twice. On "best-effort": with a directory where the
    thumbnail of the photo would be, unlinking the thumbnail throws, the
    whole delete throws with it, and the photo, which exists, is not
    deleted. On the video thumbnail: a URL that contains /videos/ after a
    /photos/ segment is taken for a photo, so the thumbnail
    [thumb_<name>.jpg] of the video, which is present, stays on disk (and
    so does the video: the call returns false). *)
Lemma deleteFile_thumbnail_failure_propagates :
  let rt := Fixture.runtime (Some Fixture.secret) in
  (Fixture.disk_blocked !! path Fixture.photo = Some (File 250000)
   ∧ deleteFile Fixture.photo_url Fixture.disk_blocked =
       (Thrown (mkError
          "EISDIR: illegal operation on a directory, unlink '/srv/citizen-service/src/uploads/thumbnails/thumb_1717-a1b2c3.jpg'"),
        Fixture.disk_blocked))
  ∧
  (includes Fixture.two_marker_url "/videos/" = true
   ∧ basename Fixture.two_marker_url = "1717-d4e5f6.mp4"
   ∧ Fixture.disk_video !! Fixture.video_thumbnail = Some (File 5000)
   ∧ deleteFile Fixture.two_marker_url Fixture.disk_video =
       (Returned false, Fixture.disk_video)).
Proof.
  intros rt. split_and!; vm_compute; reflexivity.
Qed.

(** Deleting the photo removes its thumbnail with it; deleting it again
    returns false. *)
Lemma deleteFile_resolution_witness :
  let rt := Fixture.runtime (Some Fixture.secret) in
  let fs' :=
    delete (path Fixture.photo)
      (delete Fixture.photo_thumbnail Fixture.disk_thumbnail) in
  deleteFile Fixture.photo_url Fixture.disk_thumbnail = (Returned true, fs')
  ∧ deleteFile Fixture.photo_url fs' = (Returned false, fs')
  ∧ deleteFile "/uploads/documents/plainte.pdf" fs' =
      (Thrown (mkError "Type de fichier non reconnu"), fs').
Proof.
  intros rt fs'.
  destruct (deleteFile_resolution Fixture.photo_url Fixture.disk_thumbnail)
    as (_ & Hphoto & _).
  destruct (Hphoto eq_refl) as [_ Hfirst].
  destruct Hfirst as [_ Hdeleted]; [intros sz; vm_compute; discriminate|].
  destruct (deleteFile_resolution Fixture.photo_url fs') as (_ & Hagain & _).
  destruct (Hagain eq_refl) as [_ Hsecond].
  destruct Hsecond as [Habsent _]; [intros sz; vm_compute; discriminate|].
  destruct (deleteFile_resolution "/uploads/documents/plainte.pdf" fs')
    as (Hnone & _).
  split_and!.
  - apply (Hdeleted 250000%float). vm_compute. reflexivity.
  - rewrite Habsent by (vm_compute; reflexivity).
    vm_compute. reflexivity.
  - apply Hnone; reflexivity.
Defined.

End upload_examples.

(** ** More about paths: plain names *)

Lemma list_ascii_app (s t : string) :
  list_ascii_of_string (s +:+ t)
  = list_ascii_of_string s ++ list_ascii_of_string t.
Proof. induction s as [|c s IH]; simpl; [|rewrite IH]; reflexivity. Qed.

Lemma has_slash_list (s : string) :
  has_slash s = existsb is_slash (list_ascii_of_string s).
Proof. induction s as [|c s IH]; simpl; [|rewrite IH]; reflexivity. Qed.

Lemma skip_slashes_clean (l k : list ascii) (c : ascii) :
  is_slash c = false → skip_slashes (c :: l ++ k) = c :: l ++ k.
Proof. intros Hc. simpl. rewrite Hc. reflexivity. Qed.

Lemma until_slash_app (l k : list ascii) :
  existsb is_slash l = false →
  until_slash (l ++ "/"%char :: k) = l ∧ until_slash l = l.
Proof.
  induction l as [|c l IH]; simpl; intros Hl; [done|].
  apply orb_false_iff in Hl as [Hc Hl]. rewrite Hc.
  destruct (IH Hl) as [-> ->]. done.
Qed.

(** The base name of a plain name behind a directory prefix is the
    name. *)
Lemma basename_behind_prefix (z n : string) :
  dir_prefix z → n ≠ "" → has_slash n = false → basename (z +:+ n) = n.
Proof.
  intros Hz Hn Hslash. unfold basename.
  rewrite has_slash_list in Hslash.
  rewrite list_ascii_app, rev_app_distr.
  assert (Hrev : existsb is_slash (rev (list_ascii_of_string n)) = false)
    by (rewrite existsb_reverse; exact Hslash).
  destruct (rev (list_ascii_of_string n)) as [|c l] eqn:Hl.
  { destruct n; [done|]. apply (f_equal (@length ascii)) in Hl.
    rewrite length_rev in Hl. discriminate. }
  simpl in Hrev. apply orb_false_iff in Hrev as [Hc Hrest].
  rewrite <- app_comm_cons, (skip_slashes_clean _ _ _ Hc).
  assert (Huntil : until_slash (c :: l ++ rev (list_ascii_of_string z))
                   = c :: l).
  { destruct Hz as [->|[z' ->]].
    - simpl. rewrite app_nil_r, Hc.
      destruct (until_slash_app l [] Hrest) as [_ ->]. reflexivity.
    - rewrite list_ascii_app, rev_app_distr. simpl. rewrite Hc.
      destruct (until_slash_app l (rev (list_ascii_of_string z')) Hrest)
        as [-> _]. reflexivity. }
  rewrite Huntil, <- Hl, rev_involutive.
  apply string_of_list_ascii_of_string.
Qed.

Lemma append_assoc (a b c : string) : (a +:+ b) +:+ c = a +:+ b +:+ c.
Proof.
  induction a as [|x a IH]; [reflexivity|].
  change (String x ((a +:+ b) +:+ c) = String x (a +:+ b +:+ c)).
  rewrite IH. reflexivity.
Qed.

Lemma append_nonempty_r (a b : string) : b ≠ "" → a +:+ b ≠ "".
Proof. destruct a, b; simpl; done. Qed.

Lemma ends_with_slash_app (a n : string) :
  n ≠ "" → has_slash n = false → ends_with_slash (a +:+ n) = false.
Proof.
  intros Hn Hslash. unfold ends_with_slash.
  rewrite list_ascii_app, rev_app_distr.
  rewrite has_slash_list, <- existsb_reverse in Hslash.
  destruct (rev (list_ascii_of_string n)) as [|c l] eqn:Hl.
  - destruct n; [done|]. apply (f_equal (@length ascii)) in Hl.
    rewrite length_rev in Hl. discriminate.
  - simpl in *. apply orb_false_iff in Hslash as [Hc _]. exact Hc.
Qed.

Lemma split_slash_plain (n : string) :
  has_slash n = false → split_slash n = [n].
Proof.
  induction n as [|c n IH]; simpl; intros Hs; [reflexivity|].
  apply orb_false_iff in Hs as [Hc Hs]. rewrite Hc, (IH Hs). reflexivity.
Qed.

Lemma split_slash_nonempty (s : string) : split_slash s ≠ [].
Proof.
  induction s as [|c s IH]; simpl; [done|].
  destruct (is_slash c); [done|]. destruct (split_slash s); done.
Qed.

Lemma split_slash_app (a n : string) :
  has_slash n = false →
  split_slash (a +:+ "/" +:+ n) = split_slash a ++ [n].
Proof.
  intros Hs. induction a as [|c a IH].
  - change (split_slash (String "/" n) = [""; n]). simpl.
    rewrite (split_slash_plain n Hs). reflexivity.
  - change (split_slash (String c (a +:+ "/" +:+ n))
            = split_slash (String c a) ++ [n]).
    simpl. rewrite IH. destruct (is_slash c); [reflexivity|].
    pose proof (split_slash_nonempty a) as Hne.
    destruct (split_slash a); [done|reflexivity].
Qed.

Lemma normalize_segments_app (allow : bool) (l1 l2 stack : list string) :
  normalize_segments allow (l1 ++ l2) stack
  = normalize_segments allow l2 (normalize_segments allow l1 stack).
Proof.
  revert stack. induction l1 as [|seg l1 IH]; intros stack; simpl;
    [reflexivity|].
  repeat case_match; apply IH.
Qed.

Lemma normalize_segments_plain (allow : bool) (n : string)
    (stack : list string) :
  plain_name n → normalize_segments allow [n] stack = n :: stack.
Proof.
  intros (Hne & _ & Hdot & Hdots). simpl.
  apply String.eqb_neq in Hne, Hdot, Hdots. rewrite Hne, Hdot, Hdots.
  reflexivity.
Qed.

Lemma join_with_slash_snoc (l : list string) (n : string) :
  l ≠ [] → join_with_slash (l ++ [n]) = join_with_slash l +:+ "/" +:+ n.
Proof.
  induction l as [|seg l IH]; [done|]. intros _.
  destruct l as [|seg' l]; [reflexivity|].
  change (join_with_slash ((seg :: seg' :: l) ++ [n]))
    with (seg +:+ "/" +:+ join_with_slash ((seg' :: l) ++ [n])).
  rewrite IH by done.
  change (join_with_slash (seg :: seg' :: l))
    with (seg +:+ "/" +:+ join_with_slash (seg' :: l)).
  rewrite !append_assoc. reflexivity.
Qed.

(** Joined behind anything, a plain name stays the last component. *)
Lemma join_with_slash_last (l : list string) (n : string) :
  ∃ z, dir_prefix z ∧ join_with_slash (l ++ [n]) = z +:+ n.
Proof.
  destruct l as [|seg l].
  - exists "". split; [left|]; reflexivity.
  - exists (join_with_slash (seg :: l) +:+ "/"). split; [right; eauto|].
    rewrite join_with_slash_snoc by done. rewrite append_assoc. reflexivity.
Qed.

Lemma normalize_last (z n : string) :
  dir_prefix z → plain_name n →
  ∃ z', dir_prefix z' ∧ normalize (z +:+ n) = z' +:+ n.
Proof.
  intros Hz Hplain. pose proof Hplain as (Hne & Hslash & _).
  assert (Hsplit : ∃ init, split_slash (z +:+ n) = init ++ [n]).
  { destruct Hz as [->|[z0 ->]].
    - exists []. apply (split_slash_plain n Hslash).
    - exists (split_slash z0). rewrite append_assoc.
      apply (split_slash_app z0 n Hslash). }
  destruct Hsplit as [init Hsplit].
  pose proof (ends_with_slash_app z n Hne Hslash) as Hend.
  pose proof (append_nonempty_r z n Hne) as Hq.
  unfold normalize. destruct (z +:+ n) as [|c q] eqn:Hzn; [done|].
  rewrite Hend, Hsplit, normalize_segments_app.
  rewrite (normalize_segments_plain _ _ _ Hplain). simpl rev.
  destruct (join_with_slash_last
              (rev (normalize_segments (negb (is_slash c)) init [])) n)
    as (j & Hj & ->).
  pose proof (append_nonempty_r j n Hne) as Hbody.
  apply String.eqb_neq in Hbody. rewrite Hbody.
  destruct (is_slash c).
  - exists ("/" +:+ j). split; [|reflexivity].
    destruct Hj as [->|[j' ->]]; right; [exists ""|exists ("/" +:+ j')];
      reflexivity.
  - exists j. split; [exact Hj|reflexivity].
Qed.

(** [path.join] keeps a plain last argument as the last component of its
    result. *)
Lemma path_join_last (dirs : list string) (n : string) :
  plain_name n →
  ∃ z, dir_prefix z ∧ path_join (dirs ++ [n]) = z +:+ n.
Proof.
  intros Hplain. pose proof Hplain as (Hne & _).
  unfold path_join. rewrite filter_app.
  replace (filter (λ a : string, a ≠ "") [n]) with [n]
    by (rewrite filter_cons_True by done; reflexivity).
  destruct (join_with_slash_last (filter (λ a : string, a ≠ "") dirs) n)
    as (z & Hz & Hjoin).
  destruct (filter (λ a : string, a ≠ "") dirs ++ [n]) as [|part parts] eqn:Hp.
  { destruct (filter (λ a : string, a ≠ "") dirs); discriminate. }
  rewrite Hjoin. apply (normalize_last z n Hz Hplain).
Qed.

(** [path.join] keeps a plain last argument: it is the base name of the
    joined path. *)
Theorem basename_path_join (dirs : list string) (n : string) :
  plain_name n → basename (path_join (dirs ++ [n])) = n.
Proof.
  intros Hplain. destruct (path_join_last dirs n Hplain) as (z & Hz & ->).
  destruct Hplain as (Hne & Hslash & _).
  apply (basename_behind_prefix z n Hz Hne Hslash).
Qed.

Lemma basename_path_join_witness :
  basename (path_join ["/srv/citizen-service/src/services";
                       "../uploads/thumbnails"; "thumb_1717-a1b2c3.jpg"])
  = "thumb_1717-a1b2c3.jpg".
Proof.
  apply (basename_path_join
           ["/srv/citizen-service/src/services"; "../uploads/thumbnails"]
           "thumb_1717-a1b2c3.jpg").
  repeat split; vm_compute; discriminate || reflexivity.
Defined.

(** ** The extension of a path *)

Lemma split_at_dot_some (l ext stem : list ascii) :
  split_at_dot l = Some (ext, stem) →
  l = ext ++ "."%char :: stem ∧ existsb is_dot ext = false.
Proof.
  revert ext. induction l as [|c l IH]; intros ext; simpl; [discriminate|].
  destruct (is_dot c) eqn:Hc.
  - intros [= <- <-]. apply Ascii.eqb_eq in Hc as ->. done.
  - destruct (split_at_dot l) as [[e s]|]; [|discriminate].
    intros [= <- <-]. destruct (IH e eq_refl) as [-> He].
    simpl. rewrite Hc, He. done.
Qed.

Lemma split_at_dot_none (l : list ascii) :
  existsb is_dot l = false → split_at_dot l = None.
Proof.
  induction l as [|c l IH]; simpl; [done|].
  intros [Hc Hl]%orb_false_iff. rewrite Hc, (IH Hl). reflexivity.
Qed.

Lemma split_at_dot_app (ext stem : list ascii) :
  existsb is_dot ext = false →
  split_at_dot (ext ++ "."%char :: stem) = Some (ext, stem).
Proof.
  induction ext as [|c ext IH]; simpl; [done|].
  intros [Hc Hl]%orb_false_iff. rewrite Hc, (IH Hl). reflexivity.
Qed.

Lemma existsb_app_false {A} (f : A → bool) (l k : list A) :
  existsb f (l ++ k) = false ↔ existsb f l = false ∧ existsb f k = false.
Proof. rewrite existsb_app. apply orb_false_iff. Qed.

(** An extension is empty, or a dot followed by characters that are
    neither dots nor separators. *)
Lemma extname_shape (p : string) :
  extname p = "" ∨
  ∃ t, extname p = string_of_list_ascii ("."%char :: t)
       ∧ existsb is_dot t = false ∧ existsb is_slash t = false.
Proof.
  unfold extname.
  pose proof (until_slash_clean
                (skip_slashes (rev (list_ascii_of_string p)))) as Hclean.
  destruct (split_at_dot _) as [[ext stem]|] eqn:Hsplit; [|left; done].
  apply split_at_dot_some in Hsplit as [Heq Hext].
  rewrite Heq in Hclean. apply existsb_app_false in Hclean as [Hslash _].
  destruct (rev stem) as [|c stem']; [left; done|].
  destruct (_ && _); [left; done|]. right. exists (rev ext).
  rewrite !existsb_reverse. done.
Qed.

Lemma skip_until_clean (l : list ascii) :
  existsb is_slash l = false → until_slash (skip_slashes l) = l.
Proof.
  intros Hl. destruct l as [|c l]; [reflexivity|].
  simpl in Hl. apply orb_false_iff in Hl as [Hc Hl].
  simpl. rewrite Hc. simpl. rewrite Hc. f_equal.
  clear c Hc. induction l as [|c l IH]; simpl; [reflexivity|].
  simpl in Hl. apply orb_false_iff in Hl as [Hc Hl]. rewrite Hc, (IH Hl).
  reflexivity.
Qed.

(** Behind a non-empty stem without dot or separator, an extension is read
    back as it is. *)
Lemma extname_behind_stem (s p : string) :
  s ≠ "" → has_dot s = false → has_slash s = false →
  extname (s +:+ extname p) = extname p.
Proof.
  intros Hne Hnodot Hslash. rewrite has_slash_list in Hslash.
  assert (Hdots : existsb is_dot (list_ascii_of_string s) = false).
  { clear -Hnodot. induction s as [|c s IH]; simpl in *; [done|].
    apply orb_false_iff in Hnodot as [-> Hs]. auto. }
  destruct (extname_shape p) as [->|(t & -> & Hdot & Hts)].
  - unfold extname. rewrite list_ascii_app. simpl app. rewrite app_nil_r.
    rewrite skip_until_clean by (rewrite existsb_reverse; exact Hslash).
    rewrite split_at_dot_none by (rewrite existsb_reverse; exact Hdots).
    reflexivity.
  - unfold extname. rewrite list_ascii_app, list_ascii_of_string_of_list_ascii.
    rewrite rev_app_distr.
    rewrite skip_until_clean.
    2:{ apply existsb_app_false. rewrite !existsb_reverse. simpl.
        rewrite Hts. split; [reflexivity|exact Hslash]. }
    simpl rev at 1. rewrite <- app_assoc. simpl app.
    rewrite split_at_dot_app by (rewrite existsb_reverse; exact Hdot).
    rewrite rev_involutive.
    destruct s as [|c s]; [done|]. simpl in Hdots.
    apply orb_false_iff in Hdots as [Hc _].
    simpl. rewrite Hc. simpl. rewrite rev_involutive. reflexivity.
Qed.

(** ** The names of stored files *)

Lemma has_dot_app (a b : string) :
  has_dot (a +:+ b) = has_dot a || has_dot b.
Proof.
  induction a as [|c a IH]; [reflexivity|].
  change (is_dot c || has_dot (a +:+ b) = is_dot c || has_dot a || has_dot b).
  rewrite IH. apply orb_assoc.
Qed.

Lemma has_slash_app (a b : string) :
  has_slash (a +:+ b) = has_slash a || has_slash b.
Proof.
  induction a as [|c a IH]; [reflexivity|].
  change (is_slash c || has_slash (a +:+ b)
          = is_slash c || has_slash a || has_slash b).
  rewrite IH. apply orb_assoc.
Qed.

Lemma pretty_N_char_plain (x : N) :
  is_dot (pretty_N_char x) = false ∧ is_slash (pretty_N_char x) = false
  ∧ is_dash (pretty_N_char x) = false.
Proof. unfold pretty_N_char. repeat case_match; done. Qed.

(** The digits of a number hold no dot, no separator and no dash, and
    there is at least one. *)
Lemma pretty_N_go_plain (x : N) (s : string) :
  has_dot s = false → has_slash s = false → has_dash s = false →
  has_dot (pretty_N_go x s) = false ∧ has_slash (pretty_N_go x s) = false
  ∧ has_dash (pretty_N_go x s) = false
  ∧ (s ≠ "" → pretty_N_go x s ≠ "").
Proof.
  revert s. induction (N.lt_wf_0 x) as [x _ IH]; intros s Hd Hs Hm.
  assert (x = 0 ∨ 0 < x)%N as [->|Hpos] by lia.
  - rewrite pretty_N_go_0. done.
  - rewrite pretty_N_go_step by done.
    destruct (pretty_N_char_plain (x `mod` 10)) as (Hcd & Hcs & Hcm).
    destruct (IH (x `div` 10)%N ltac:(by apply N.div_lt)
                (String (pretty_N_char (x `mod` 10)) s))
      as (Hd' & Hs' & Hm' & Hne).
    { simpl. rewrite Hcd. exact Hd. }
    { simpl. rewrite Hcs. exact Hs. }
    { simpl. rewrite Hcm. exact Hm. }
    split_and!; [exact Hd'|exact Hs'|exact Hm'|].
    intros _. apply Hne. discriminate.
Qed.

Lemma pretty_N_plain (x : N) :
  has_dot (pretty x) = false ∧ has_slash (pretty x) = false
  ∧ has_dash (pretty x) = false ∧ pretty x ≠ "".
Proof.
  unfold pretty, pretty_N. destruct (decide (x = 0%N)) as [->|Hx]; [done|].
  rewrite pretty_N_go_step by lia.
  destruct (pretty_N_char_plain (x `mod` 10)) as (Hcd & Hcs & Hcm).
  destruct (pretty_N_go_plain (x `div` 10)
              (String (pretty_N_char (x `mod` 10)) ""))
    as (Hd' & Hs' & Hm' & Hne).
  { simpl. rewrite Hcd. reflexivity. }
  { simpl. rewrite Hcs. reflexivity. }
  { simpl. rewrite Hcm. reflexivity. }
  split_and!; [exact Hd'|exact Hs'|exact Hm'|].
  apply Hne. discriminate.
Qed.

Lemma hex_digit_plain (n : N) :
  is_dot (hex_digit n) = false ∧ is_slash (hex_digit n) = false.
Proof. unfold hex_digit. repeat case_match; done. Qed.

Lemma hex_plain (bytes : list Byte.byte) :
  has_dot (hex bytes) = false ∧ has_slash (hex bytes) = false.
Proof.
  induction bytes as [|b bytes [IHd IHs]]; [done|]. simpl.
  destruct (hex_digit_plain (Byte.to_N b / 16)) as [-> ->].
  destruct (hex_digit_plain (Byte.to_N b `mod` 16)) as [-> ->]. done.
Qed.

(** The unique suffix of a generated name. *)
Lemma uniqueSuffix_plain (now : N) (bytes : list Byte.byte) :
  let suffix := pretty now +:+ "-" +:+ hex bytes in
  suffix ≠ "" ∧ has_dot suffix = false ∧ has_slash suffix = false.
Proof.
  intros suffix. unfold suffix.
  destruct (pretty_N_plain now) as (Hd & Hs & _ & Hne).
  destruct (hex_plain bytes) as [Hhd Hhs].
  rewrite !has_dot_app, !has_slash_app, Hd, Hs, Hhd, Hhs. split_and!; try done.
  destruct (pretty now); done.
Qed.

(** The stored name keeps the extension of the original name, whatever
    that name is: [path.extname] of one is [path.extname] of the other. *)
Theorem filename_keeps_extension (now : N) (bytes : list Byte.byte)
    (file : UploadedFile) :
  extname (UploadConfig.filename now bytes file) = extname (originalname file).
Proof.
  unfold UploadConfig.filename. cbv zeta.
  destruct (uniqueSuffix_plain now bytes) as (Hne & Hd & Hs).
  apply (extname_behind_stem _ _ Hne Hd Hs).
Qed.

(** The stored name is a plain file name, whatever the original name is
    (also one made of separators and dots): joined to the destination
    folder it is the base name of the stored path. *)
Theorem filename_plain (now : N) (bytes : list Byte.byte)
    (file : UploadedFile) (folder : string) :
  plain_name (UploadConfig.filename now bytes file) ∧
  basename (path_join [folder; UploadConfig.filename now bytes file])
  = UploadConfig.filename now bytes file.
Proof.
  assert (Hplain : plain_name (UploadConfig.filename now bytes file)).
  { unfold UploadConfig.filename. cbv zeta.
    destruct (pretty_N_plain now) as (Hd & Hs & _ & Hne).
    destruct (hex_plain bytes) as [_ Hhs].
    assert (Hext : has_slash (extname (originalname file)) = false).
    { destruct (extname_shape (originalname file)) as [->|(t & -> & _ & Ht)];
        [done|]. rewrite has_slash_of_list. simpl. exact Ht. }
    assert (Hall : has_slash ((pretty now +:+ "-" +:+ hex bytes)
                              +:+ extname (originalname file)) = false)
      by (rewrite !has_slash_app, Hs, Hhs, Hext; done).
    destruct (pretty now) as [|c digits]; [done|].
    simpl in Hd. apply orb_false_iff in Hd as [Hc Hd].
    split_and!.
    - done.
    - exact Hall.
    - intros [= -> _]. done.
    - intros [= -> _]. done. }
  split; [exact Hplain|].
  apply (basename_path_join [folder] _ Hplain).
Qed.

Lemma hex_digit_inj (x y : N) :
  (x < 16)%N → (y < 16)%N → hex_digit x = hex_digit y → x = y.
Proof.
  intros Hx Hy.
  assert (x = 0 ∨ x = 1 ∨ x = 2 ∨ x = 3 ∨ x = 4 ∨ x = 5 ∨ x = 6 ∨ x = 7
          ∨ x = 8 ∨ x = 9 ∨ x = 10 ∨ x = 11 ∨ x = 12 ∨ x = 13 ∨ x = 14
          ∨ x = 15)%N as Hxs by lia.
  assert (y = 0 ∨ y = 1 ∨ y = 2 ∨ y = 3 ∨ y = 4 ∨ y = 5 ∨ y = 6 ∨ y = 7
          ∨ y = 8 ∨ y = 9 ∨ y = 10 ∨ y = 11 ∨ y = 12 ∨ y = 13 ∨ y = 14
          ∨ y = 15)%N as Hys by lia.
  clear Hx Hy.
  repeat (destruct Hxs as [->|Hxs]); [..|subst x];
    repeat (destruct Hys as [->|Hys]); try subst y;
    intros Heq; first [reflexivity|discriminate Heq].
Qed.

Lemma hex_inj (b1 b2 : list Byte.byte) : hex b1 = hex b2 → b1 = b2.
Proof.
  revert b2. induction b1 as [|x b1 IH]; intros [|y b2]; simpl;
    try discriminate; [reflexivity|].
  intros [= Hhi Hlo Hrest]. f_equal; [|apply IH, Hrest].
  pose proof (Byte.to_N_bounded x) as Hx.
  pose proof (Byte.to_N_bounded y) as Hy.
  apply hex_digit_inj in Hhi;
    [|apply N.Div0.div_lt_upper_bound; lia..].
  apply hex_digit_inj in Hlo; [|apply N.mod_lt; lia..].
  assert (Heq : Byte.to_N x = Byte.to_N y).
  { rewrite (N.div_mod' (Byte.to_N x) 16), (N.div_mod' (Byte.to_N y) 16).
    rewrite Hhi, Hlo. reflexivity. }
  pose proof (Byte.of_to_N x) as Hox. rewrite Heq, Byte.of_to_N in Hox.
  congruence.
Qed.

Lemma hex_length (b : list Byte.byte) :
  String.length (hex b) = 2 * length b.
Proof. induction b as [|x b IH]; simpl; [|rewrite IH]; lia. Qed.

Lemma split_at_dash (d1 d2 r1 r2 : string) :
  has_dash d1 = false → has_dash d2 = false →
  d1 +:+ "-" +:+ r1 = d2 +:+ "-" +:+ r2 → d1 = d2 ∧ r1 = r2.
Proof.
  revert d2. induction d1 as [|c d1 IH]; intros [|c' d2];
    unfold String.append; fold String.append; simpl.
  - intros _ _ [= ->]. done.
  - intros _ [Hc _]%orb_false_iff [= <- _]. done.
  - intros [Hc _]%orb_false_iff _ [= -> _]. done.
  - intros [_ H1]%orb_false_iff [_ H2]%orb_false_iff [= -> Heq].
    destruct (IH d2 H1 H2 Heq) as [-> ->]. done.
Qed.

Lemma append_same_length (h1 h2 e1 e2 : string) :
  String.length h1 = String.length h2 →
  h1 +:+ e1 = h2 +:+ e2 → h1 = h2 ∧ e1 = e2.
Proof.
  revert h2. induction h1 as [|c h1 IH]; intros [|c' h2];
    unfold String.append; fold String.append; simpl;
    try discriminate; [done|].
  intros [= Hlen] [= -> Heq]. destruct (IH h2 Hlen Heq) as [-> ->]. done.
Qed.

(** Two stored names are equal only when they were made at the same
    millisecond, from the same random bytes, for the same extension. *)
Theorem filename_collision (now1 now2 : N) (bytes1 bytes2 : list Byte.byte)
    (file1 file2 : UploadedFile) :
  length bytes1 = length bytes2 →
  UploadConfig.filename now1 bytes1 file1
  = UploadConfig.filename now2 bytes2 file2 →
  now1 = now2 ∧ bytes1 = bytes2
  ∧ extname (originalname file1) = extname (originalname file2).
Proof.
  intros Hlen. unfold UploadConfig.filename. cbv zeta.
  rewrite !append_assoc. intros Heq.
  destruct (pretty_N_plain now1) as (_ & _ & Hm1 & _).
  destruct (pretty_N_plain now2) as (_ & _ & Hm2 & _).
  apply (split_at_dash _ _ _ _ Hm1 Hm2) in Heq as [Hnow Heq].
  apply append_same_length in Heq as [Hhex Hext];
    [|rewrite !hex_length; lia].
  split_and!; [|apply hex_inj, Hhex|exact Hext].
  apply (inj pretty), Hnow.
Qed.

Lemma filename_collision_witness :
  let now := 1717000000000%N in
  let bytes := [Byte.xa1; Byte.xb2; Byte.xc3; Byte.x00; Byte.x7f; Byte.xff] in
  now = now ∧ bytes = bytes
  ∧ extname "nid-de-poule.jpg" = extname "IMG_0042.jpg".
Proof.
  intros now bytes.
  apply (filename_collision now now bytes bytes Fixture.photo
           {| originalname := "IMG_0042.jpg"; mimetype := "image/jpeg";
              path := "" |} eq_refl).
  vm_compute. reflexivity.
Defined.

(** ** Accepted uploads *)

Section accepted_uploads.
Context {rt : Runtime} {tools : MediaTools}.

Import UploadService.

(** A file the upload filter accepts is always one [processFile] has a
    processor for, and the folder [destination] stores it in is the folder
    of the URL of its proof: photos with [processImage], videos with
    [processVideo], audio with [processAudio]. *)
Theorem accepted_file_is_processed (file : UploadedFile) :
  UploadConfig.fileFilter file = inr true →
  ∃ folder,
    UploadConfig.destination file
    = path_join [__dirname; "../uploads/" +:+ folder]
    ∧ (∀ fs p fs', processFile file fs = (Returned p, fs') →
         url p = "/uploads/" +:+ folder +:+ "/" +:+ basename (path file)
         ∧ folder_of_url (url p) = Some folder)
    ∧ ((folder = "photos" ∧ ∀ fs, processFile file fs = processImage file fs)
       ∨ (folder = "videos"
          ∧ ∀ fs, processFile file fs = processVideo file fs)
       ∨ (folder = "audio"
          ∧ ∀ fs, processFile file fs = processAudio file fs)).
Proof.
  unfold UploadConfig.fileFilter. case_bool_decide as Hmime; [|discriminate].
  intros _. pose proof (basename_no_slash (path file)) as Hb.
  assert (Hkind :
    (startsWith (mimetype file) "image/" = true)
    ∨ (startsWith (mimetype file) "video/" = true)
    ∨ (startsWith (mimetype file) "audio/" = true)).
  { unfold UploadConfig.allowedMimeTypes in Hmime.
    repeat (apply elem_of_cons in Hmime as [->|Hmime]); auto.
    apply elem_of_nil in Hmime as []. }
  destruct Hkind as [Hi|[Hv|Ha]].
  - exists "photos". split_and!.
    + unfold UploadConfig.destination.
      rewrite (startsWith_exclusive _ _ "v" _ "ideo/" Hi) by done.
      rewrite (startsWith_exclusive _ _ "a" _ "udio/" Hi) by done.
      reflexivity.
    + intros fs p fs'. rewrite (processFile_image _ _ Hi). intros Hp.
      destruct (processImage_produces _ _ _ _ Hp) as [_ ->].
      split; [reflexivity|apply photos_url_folder].
    + left. split; [reflexivity|]. intros fs. apply processFile_image, Hi.
  - exists "videos". split_and!.
    + unfold UploadConfig.destination. rewrite Hv. reflexivity.
    + intros fs p fs'. rewrite (processFile_video _ _ Hv). intros Hp.
      destruct (processVideo_produces _ _ _ _ Hp) as [_ ->].
      split; [reflexivity|apply videos_url_folder, Hb].
    + right. left. split; [reflexivity|]. intros fs.
      apply processFile_video, Hv.
  - exists "audio". split_and!.
    + unfold UploadConfig.destination.
      rewrite (startsWith_exclusive _ _ "v" _ "ideo/" Ha) by done.
      rewrite Ha. reflexivity.
    + intros fs p fs'. rewrite (processFile_audio _ _ Ha). intros Hp.
      destruct (processAudio_produces _ _ _ _ Hp) as [_ ->].
      split; [reflexivity|apply audio_url_folder, Hb].
    + right. right. split; [reflexivity|]. intros fs.
      apply processFile_audio, Ha.
Qed.

End accepted_uploads.

Lemma accepted_file_is_processed_witness :
  let rt := Fixture.runtime None in
  let tools := Fixture.tools_ok in
  ∃ folder,
    UploadConfig.destination Fixture.video
    = path_join [__dirname; "../uploads/" +:+ folder]
    ∧ (∀ fs p fs',
         UploadService.processFile Fixture.video fs = (Returned p, fs') →
         url p = "/uploads/" +:+ folder +:+ "/"
                 +:+ basename (path Fixture.video)
         ∧ folder_of_url (url p) = Some folder)
    ∧ ((folder = "photos"
        ∧ ∀ fs, UploadService.processFile Fixture.video fs
                = UploadService.processImage Fixture.video fs)
       ∨ (folder = "videos"
          ∧ ∀ fs, UploadService.processFile Fixture.video fs
                  = UploadService.processVideo Fixture.video fs)
       ∨ (folder = "audio"
          ∧ ∀ fs, UploadService.processFile Fixture.video fs
                  = UploadService.processAudio Fixture.video fs)).
Proof.
  intros rt tools.
  apply (accepted_file_is_processed Fixture.video). vm_compute. reflexivity.
Defined.

(** ** The storage folders *)

Section storage_folders.
Context {rt : Runtime}.
Variable blksize : float.




End storage_folders.


(** ** What deleting an asset changes *)

Section deletion.
Context {rt : Runtime} {tools : MediaTools}.

Import UploadService.

Lemma delete_with_thumbnail_cases (primary thumb : string) (fs : FS) :
  (let* filePath :=
     (let* present := existsSync thumb in
      let* _ := if present : bool then unlinkSync thumb else ret tt in
      ret primary) in
   let* present := existsSync filePath in
   if present : bool then let* _ := unlinkSync filePath in ret true
   else ret false) fs
  = match fs !! thumb with
    | Some (Dir _) =>
        (Thrown (mkError ("EISDIR: illegal operation on a directory, unlink '"
                            +:+ thumb +:+ "'")), fs)
    | _ =>
        match delete thumb fs !! primary with
        | None => (Returned false, delete thumb fs)
        | Some (File _) => (Returned true, delete primary (delete thumb fs))
        | Some (Dir _) =>
            (Thrown (mkError
                       ("EISDIR: illegal operation on a directory, unlink '"
                          +:+ primary +:+ "'")), delete thumb fs)
        end
    end.
Proof.
  unfold bind, existsSync, unlinkSync, ret.
  destruct (fs !! thumb) as [[tsz|tsz]|] eqn:Ht.
  - rewrite bool_decide_eq_true_2 by eauto. rewrite Ht.
    destruct (delete thumb fs !! primary) as [[sz|sz]|] eqn:Hp.
    + rewrite bool_decide_eq_true_2 by eauto. rewrite Hp. reflexivity.
    + rewrite bool_decide_eq_true_2 by eauto. rewrite Hp. reflexivity.
    + rewrite bool_decide_eq_false_2 by (intros [? ?]; discriminate).
      reflexivity.
  - rewrite bool_decide_eq_true_2 by eauto. rewrite Ht. reflexivity.
  - rewrite bool_decide_eq_false_2 by (intros [? ?]; discriminate).
    rewrite (delete_id fs thumb Ht).
    destruct (fs !! primary) as [[sz|sz]|] eqn:Hp.
    + rewrite bool_decide_eq_true_2 by eauto. rewrite Hp. reflexivity.
    + rewrite bool_decide_eq_true_2 by eauto. rewrite Hp. reflexivity.
    + rewrite bool_decide_eq_false_2 by (intros [? ?]; discriminate).
      reflexivity.
Qed.

Lemma delete_alone_cases (primary : string) (fs : FS) :
  (let* filePath := ret primary in
   let* present := existsSync filePath in
   if present : bool then let* _ := unlinkSync filePath in ret true
   else ret false) fs
  = match fs !! primary with
    | None => (Returned false, fs)
    | Some (File _) => (Returned true, delete primary fs)
    | Some (Dir _) =>
        (Thrown (mkError
                   ("EISDIR: illegal operation on a directory, unlink '"
                      +:+ primary +:+ "'")), fs)
    end.
Proof.
  unfold bind, existsSync, unlinkSync, ret.
  destruct (fs !! primary) as [[sz|sz]|] eqn:Hp.
  - rewrite bool_decide_eq_true_2 by eauto. rewrite Hp. reflexivity.
  - rewrite bool_decide_eq_true_2 by eauto. rewrite Hp. reflexivity.
  - rewrite bool_decide_eq_false_2 by (intros [? ?]; discriminate).
    reflexivity.
Qed.

(** The two properties, for an asset with thumbnail. *)
Lemma with_thumbnail_unlinks (primary thumb : string) (fs fs' : FS)
    (r : outcome bool) :
  match fs !! thumb with
  | Some (Dir _) =>
      (Thrown (mkError ("EISDIR: illegal operation on a directory, unlink '"
                          +:+ thumb +:+ "'")), fs)
  | _ =>
      match delete thumb fs !! primary with
      | None => (Returned false, delete thumb fs)
      | Some (File _) => (Returned true, delete primary (delete thumb fs))
      | Some (Dir _) =>
          (Thrown (mkError
                     ("EISDIR: illegal operation on a directory, unlink '"
                        +:+ primary +:+ "'")), delete thumb fs)
      end
  end = (r, fs') →
  only_unlinked [primary; thumb] fs fs' ∧ r ≠ Pending ∧
  ∀ b, r = Returned b → fs' !! primary = None ∧ fs' !! thumb = None.
Proof.
  assert (Hthumb : only_unlinked [primary; thumb] fs (delete thumb fs)
                   ∨ ∃ sz, fs !! thumb = Some (Dir sz)).
  { destruct (fs !! thumb) as [[tsz|tsz]|] eqn:Ht; [left|right; eauto|left].
    - intros q. destruct (decide (q = thumb)) as [->|Hq].
      + right. rewrite lookup_delete_eq.
        split_and!; [set_solver|done|eauto].
      + left. rewrite lookup_delete_ne by done. done.
    - rewrite (delete_id fs thumb Ht). intros q. by left. }
  assert (Hgone : delete thumb fs !! thumb = None) by apply lookup_delete_eq.
  destruct (fs !! thumb) as [[tsz|tsz]|] eqn:Ht.
  2:{ intros [= <- <-]. split_and!; [intros q; by left|done|done]. }
  all: destruct Hthumb as [Hthumb|[? ?]]; [|discriminate].
  all: destruct (delete thumb fs !! primary) as [[sz|sz]|] eqn:Hp;
    intros [= <- <-]; (split_and!; [| done |]).
  all: try (intros b [= <-]).
  all: try (split; [first [apply lookup_delete_eq|exact Hp]|]).
  all: try exact Hthumb.
  all: try (destruct (decide (primary = thumb)) as [->|Hne];
            [apply lookup_delete_eq|rewrite lookup_delete_ne by done;
                                    exact Hgone]).
  all: try exact Hgone.
  all: intros q; destruct (decide (q = primary)) as [->|Hq];
    [|rewrite lookup_delete_ne by done; apply Hthumb].
  all: destruct (Hthumb primary) as [Hsame|(_ & Hnone & _)];
    [|rewrite Hnone in Hp; discriminate].
  all: right; rewrite lookup_delete_eq;
    split_and!; [set_solver|done|rewrite <- Hsame, Hp; eauto].
Qed.

Lemma alone_unlinks (primary : string) (fs fs' : FS) (r : outcome bool) :
  match fs !! primary with
  | None => (Returned false, fs)
  | Some (File _) => (Returned true, delete primary fs)
  | Some (Dir _) =>
      (Thrown (mkError
                 ("EISDIR: illegal operation on a directory, unlink '"
                    +:+ primary +:+ "'")), fs)
  end = (r, fs') →
  only_unlinked [primary] fs fs' ∧ r ≠ Pending ∧
  ∀ b, r = Returned b → fs' !! primary = None.
Proof.
  destruct (fs !! primary) as [[sz|sz]|] eqn:Hp; intros [= <- <-].
  - split_and!; [|done|intros b _; apply lookup_delete_eq].
    intros q. destruct (decide (q = primary)) as [->|Hq].
    + right. rewrite lookup_delete_eq. split_and!; [set_solver|done|eauto].
    + left. rewrite lookup_delete_ne by done. done.
  - split_and!; [intros q; by left|done|done].
  - split_and!; [intros q; by left|done|intros b _; exact Hp].
Qed.

(** [deleteFile] touches nothing but the asset of the URL and its
    thumbnail: whatever it answers, every other path of the disk is as it
    was, nothing is created or changed, directories are never removed; and
    its promise settles. *)
Theorem deleteFile_only_unlinks (fileUrl : string) (fs fs' : FS)
    (r : outcome bool) :
  deleteFile fileUrl fs = (r, fs') →
  only_unlinked (deletion_targets fileUrl) fs fs' ∧ r ≠ Pending.
Proof.
  unfold deleteFile, deletion_targets. rewrite try_catch_rethrow. cbv zeta.
  destruct (includes fileUrl "/photos/");
    [|destruct (includes fileUrl "/videos/");
      [|destruct (includes fileUrl "/audio/")]].
  - rewrite delete_with_thumbnail_cases. intros Hr.
    apply with_thumbnail_unlinks in Hr as (Hu & Hs & _). done.
  - rewrite delete_with_thumbnail_cases. intros Hr.
    apply with_thumbnail_unlinks in Hr as (Hu & Hs & _). done.
  - rewrite delete_alone_cases. intros Hr.
    apply alone_unlinks in Hr as (Hu & Hs & _). done.
  - intros [= <- <-]. split; [intros q; by left|done].
Qed.

(** Once [deleteFile] has returned, true or false, the asset and its
    thumbnail are gone, and deleting the same URL again returns false and
    changes nothing. *)
Theorem deleteFile_again (fileUrl : string) (fs fs' : FS) (b : bool) :
  deleteFile fileUrl fs = (Returned b, fs') →
  (∀ q, q ∈ deletion_targets fileUrl → fs' !! q = None) ∧
  deleteFile fileUrl fs' = (Returned false, fs').
Proof.
  unfold deleteFile, deletion_targets. rewrite !try_catch_rethrow. cbv zeta.
  destruct (includes fileUrl "/photos/");
    [|destruct (includes fileUrl "/videos/");
      [|destruct (includes fileUrl "/audio/")]].
  - rewrite !delete_with_thumbnail_cases. intros Hr.
    apply with_thumbnail_unlinks in Hr as (_ & _ & Hgone).
    destruct (Hgone b eq_refl) as [Hp Ht]. split.
    + intros q Hq. set_unfold in Hq. destruct Hq as [->|[->|[]]]; done.
    + rewrite Ht, (delete_id fs' _ Ht), Hp. reflexivity.
  - rewrite !delete_with_thumbnail_cases. intros Hr.
    apply with_thumbnail_unlinks in Hr as (_ & _ & Hgone).
    destruct (Hgone b eq_refl) as [Hp Ht]. split.
    + intros q Hq. set_unfold in Hq. destruct Hq as [->|[->|[]]]; done.
    + rewrite Ht, (delete_id fs' _ Ht), Hp. reflexivity.
  - rewrite !delete_alone_cases. intros Hr.
    apply alone_unlinks in Hr as (_ & _ & Hgone).
    pose proof (Hgone b eq_refl) as Hp. split.
    + intros q Hq. set_unfold in Hq. destruct Hq as [->|[]]; done.
    + rewrite Hp. reflexivity.
  - discriminate.
Qed.

End deletion.

Lemma deleteFile_only_unlinks_witness :
  let rt := Fixture.runtime None in
  only_unlinked (deletion_targets Fixture.photo_url) Fixture.disk_thumbnail
    (delete (path Fixture.photo)
       (delete Fixture.photo_thumbnail Fixture.disk_thumbnail))
  ∧ Returned true ≠ Pending.
Proof.
  intros rt.
  apply (deleteFile_only_unlinks Fixture.photo_url Fixture.disk_thumbnail).
  vm_compute. reflexivity.
Defined.

Lemma deleteFile_again_witness :
  let rt := Fixture.runtime None in
  let fs' :=
    delete (path Fixture.photo)
      (delete Fixture.photo_thumbnail Fixture.disk_thumbnail) in
  (∀ q, q ∈ deletion_targets Fixture.photo_url → fs' !! q = None) ∧
  UploadService.deleteFile Fixture.photo_url fs' = (Returned false, fs').
Proof.
  intros rt fs'.
  apply (deleteFile_again Fixture.photo_url Fixture.disk_thumbnail fs' true).
  vm_compute. reflexivity.
Defined.

(** ** What processing a file changes *)

Section processing.
Context {rt : Runtime} {tools : MediaTools}.

Import UploadService.

(** The proof [processFile] returns describes what is on disk: the
    uploaded file is there, and the size of the proof is its size. *)
Theorem processFile_size_on_disk (file : UploadedFile) (fs fs' : FS)
    (p : Proof) :
  processFile file fs = (Returned p, fs') →
  ∃ n, fs' !! path file = Some n ∧ size p = node_size n.
Proof.
  unfold processFile. rewrite try_catch_rethrow.
  destruct (startsWith (mimetype file) "image/");
    [|destruct (startsWith (mimetype file) "video/");
      [|destruct (startsWith (mimetype file) "audio/")]].
  - unfold processImage. rewrite try_catch_rethrow.
    unfold bind, sharp, unlinkSync, renameSync, statSync_size, ret.
    repeat case_match; intros; simplify_eq; simpl; eauto.
  - unfold processVideo, in_handler, bind, statSync_size, ret.
    repeat case_match; intros; simplify_eq; simpl; eauto.
  - unfold processAudio. rewrite try_catch_rethrow.
    unfold bind, statSync_size, ret.
    repeat case_match; intros; simplify_eq; simpl; eauto.
  - discriminate.
Qed.


(** A processing that throws never loses the upload: the uploaded file is
    on disk as it was (for an image, provided its thumbnail is not written
    over the file itself). *)
Theorem processFile_failure_keeps_upload (file : UploadedFile) (fs fs' : FS)
    (e : JsError) :
  processFile file fs = (Thrown e, fs') →
  path_join [__dirname; "../uploads/thumbnails";
             "thumb_" +:+ basename (path file)] ≠ path file →
  fs' !! path file = fs !! path file.
Proof.
  unfold processFile. rewrite try_catch_rethrow. intros Hr Hthumb.
  pose proof (append_tmp_differs (path file)) as Htmp.
  revert Hr.
  destruct (startsWith (mimetype file) "image/");
    [|destruct (startsWith (mimetype file) "video/");
      [|destruct (startsWith (mimetype file) "audio/")]].
  - unfold processImage. rewrite try_catch_rethrow.
    unfold bind, sharp, unlinkSync, renameSync, statSync_size, ret.
    repeat case_match; intros; simplify_eq;
      rewrite ?lookup_insert_ne by done;
      first [done | congruence | by simplify_map_eq].
  - unfold processVideo, in_handler, bind, statSync_size, ret.
    repeat case_match; intros; simplify_eq; congruence.
  - unfold processAudio. rewrite try_catch_rethrow.
    unfold bind, statSync_size, ret.
    repeat case_match; intros; simplify_eq; congruence.
  - intros [= <- <-]. reflexivity.
Qed.

End processing.

Lemma processFile_size_on_disk_witness :
  let rt := Fixture.runtime None in
  let tools := Fixture.tools_ok in
  ∃ n, snd (UploadService.processFile Fixture.photo Fixture.disk0)
         !! path Fixture.photo = Some n
       ∧ size Fixture.photo_proof = node_size n.
Proof.
  intros rt tools.
  apply (processFile_size_on_disk Fixture.photo Fixture.disk0).
  vm_compute. reflexivity.
Defined.


Lemma processFile_failure_keeps_upload_witness :
  let rt := Fixture.runtime None in
  let tools := tools_optimize_fails in
  snd (UploadService.processFile Fixture.photo Fixture.disk0)
    !! path Fixture.photo
  = Fixture.disk0 !! path Fixture.photo.
Proof.
  intros rt tools.
  apply (processFile_failure_keeps_upload Fixture.photo Fixture.disk0 _
           (mkError "Input file contains unsupported image format")).
  - vm_compute. reflexivity.
  - vm_compute. discriminate.
Defined.

(** ** From upload to deletion *)

Section round_trip.
Context {rt : Runtime} {tools : MediaTools}.

Import UploadService.

Lemma processImage_state (file : UploadedFile) (fs : FS)
    (tsz osz sz0 : float) :
  let thumbnailPath :=
    path_join [__dirname; "../uploads/thumbnails";
               "thumb_" +:+ basename (path file)] in
  fs !! path file = Some (File sz0) →
  image_encodings_succeed file fs tsz osz →
  thumbnailPath ≠ path file →
  processImage file fs =
    (Returned {| type := "photo";
                 url := "/uploads/photos/" +:+ basename (path file);
                 thumbnail :=
                   Some ("/uploads/thumbnails/thumb_"
                           +:+ basename (path file));
                 size := osz |},
     <[path file := File osz]>
       (delete (path file +:+ ".tmp")
          (delete (path file)
             (<[path file +:+ ".tmp" := File osz]>
                (<[thumbnailPath := File tsz]> fs))))).
Proof.
  intros thumbnailPath Hfile [Hthumb Hopt] Hne. cbv zeta in Hthumb, Hopt.
  fold thumbnailPath in Hthumb, Hopt.
  unfold processImage. rewrite try_catch_rethrow. fold thumbnailPath.
  pose proof (append_tmp_differs (path file)) as Htmp.
  unfold bind, sharp. rewrite Hthumb, Hopt.
  unfold unlinkSync.
  rewrite lookup_insert_ne, lookup_insert_ne, Hfile by done.
  unfold renameSync.
  rewrite lookup_delete_ne, lookup_insert_eq, lookup_delete_eq by done.
  unfold statSync_size. rewrite lookup_insert_eq. reflexivity.
Qed.

Lemma thumb_name_differs (b : string) :
  "thumb_" +:+ b ≠ b ∧ "thumb_" +:+ b ≠ b +:+ ".tmp".
Proof.
  split; intros Heq; apply (f_equal String.length) in Heq;
    rewrite ?length_app_string in Heq; simpl in Heq; lia.
Qed.

Lemma plain_thumb_name (b : string) :
  has_slash b = false → plain_name ("thumb_" +:+ b).
Proof.
  intros Hb. split_and!; try discriminate.
  rewrite has_slash_app, Hb. reflexivity.
Qed.

(** A photo stored in the photos folder under a plain name, processed and
    then deleted by the URL of its proof: both calls succeed, the photo and
    its thumbnail are gone, and apart from them and the temporary copy the
    disk is as it was before the upload was processed. *)
Theorem photo_processed_then_deleted (file : UploadedFile) (fs : FS)
    (name : string) (sz0 tsz osz : float) :
  startsWith (mimetype file) "image/" = true →
  plain_name name →
  path file = path_join [__dirname; "../uploads/photos"; name] →
  fs !! path file = Some (File sz0) →
  image_encodings_succeed file fs tsz osz →
  let thumbnailPath :=
    path_join [__dirname; "../uploads/thumbnails"; "thumb_" +:+ name] in
  ∃ p fs1 fs2,
    processFile file fs = (Returned p, fs1)
    ∧ fs1 !! thumbnailPath = Some (File tsz)
    ∧ deleteFile (url p) fs1 = (Returned true, fs2)
    ∧ fs2 !! path file = None
    ∧ fs2 !! thumbnailPath = None
    ∧ ∀ q, q ≠ path file → q ≠ path file +:+ ".tmp" → q ≠ thumbnailPath →
           fs2 !! q = fs !! q.
Proof.
  intros Hm Hplain Hpath Hfile Henc thumbnailPath.
  pose proof Hplain as (Hne & Hslash & _).
  assert (Hbase : basename (path file) = name).
  { rewrite Hpath.
    apply (basename_path_join [__dirname; "../uploads/photos"] name Hplain). }
  destruct (path_join_last [__dirname; "../uploads/photos"] name Hplain)
    as (z & Hz & Hzn). simpl app in Hzn. rewrite <- Hpath in Hzn.
  destruct (thumb_name_differs name) as [Hd1 Hd2].
  assert (Hthumb_base : basename thumbnailPath = "thumb_" +:+ name).
  { apply (basename_path_join [__dirname; "../uploads/thumbnails"]).
    apply plain_thumb_name, Hslash. }
  assert (Hne1 : thumbnailPath ≠ path file).
  { intros Heq. rewrite Heq, Hbase in Hthumb_base. by destruct Hd1. }
  assert (Hne2 : thumbnailPath ≠ path file +:+ ".tmp").
  { intros Heq. rewrite Heq, Hzn, append_assoc in Hthumb_base.
    rewrite basename_behind_prefix in Hthumb_base;
      [by destruct Hd2|exact Hz|by destruct name|].
    rewrite has_slash_app, Hslash. reflexivity. }
  pose proof (append_tmp_differs (path file)) as Htmp.
  pose proof (processImage_state file fs tsz osz sz0 Hfile Henc) as Hproc.
  cbv zeta in Hproc. rewrite Hbase in Hproc. fold thumbnailPath in Hproc.
  specialize (Hproc Hne1).
  eexists _, _, _. split; [rewrite (processFile_image _ _ Hm); exact Hproc|].
  assert (Hurl : basename ("/uploads/photos/" +:+ name) = name).
  { apply basename_behind_prefix; [right; exists "/uploads/photos"|..]; done. }
  split.
  { rewrite lookup_insert_ne, lookup_delete_ne, lookup_delete_ne,
      lookup_insert_ne, lookup_insert_eq by done. reflexivity. }
  unfold deleteFile. rewrite try_catch_rethrow. cbn [url].
  rewrite includes_app by reflexivity. rewrite Hurl, <- Hpath.
  fold thumbnailPath. rewrite delete_with_thumbnail_cases.
  rewrite lookup_insert_ne, lookup_delete_ne, lookup_delete_ne,
    lookup_insert_ne, lookup_insert_eq by done.
  rewrite lookup_delete_ne, lookup_insert_eq by done.
  split_and!; [reflexivity|apply lookup_delete_eq| |].
  - rewrite lookup_delete_ne by done. apply lookup_delete_eq.
  - intros q Hq1 Hq2 Hq3.
    rewrite !lookup_delete_ne, lookup_insert_ne, !lookup_delete_ne,
      !lookup_insert_ne by done. reflexivity.
Qed.

End round_trip.

Lemma photo_processed_then_deleted_witness :
  let rt := Fixture.runtime None in
  let tools := Fixture.tools_ok in
  let thumbnailPath :=
    path_join [__dirname; "../uploads/thumbnails";
               "thumb_" +:+ "1717-a1b2c3.jpg"] in
  ∃ p fs1 fs2,
    UploadService.processFile Fixture.photo Fixture.disk0 = (Returned p, fs1)
    ∧ fs1 !! thumbnailPath = Some (File 7000)
    ∧ UploadService.deleteFile (url p) fs1 = (Returned true, fs2)
    ∧ fs2 !! path Fixture.photo = None
    ∧ fs2 !! thumbnailPath = None
    ∧ ∀ q, q ≠ path Fixture.photo → q ≠ path Fixture.photo +:+ ".tmp" →
           q ≠ thumbnailPath → fs2 !! q = Fixture.disk0 !! q.
Proof.
  intros rt tools thumbnailPath.
  apply (photo_processed_then_deleted Fixture.photo Fixture.disk0
           "1717-a1b2c3.jpg" 250000 7000 90000).
  - reflexivity.
  - repeat split; vm_compute; discriminate || reflexivity.
  - vm_compute. reflexivity.
  - vm_compute. reflexivity.
  - split; reflexivity.
Defined.

(** ** More about the alert controller *)

Section controller_more.
Context {rt : Runtime} {tools : MediaTools} {Db : Type}
  {svc : AlertService Db}.

Import AlertController.

(** When processing an uploaded file throws, the creation is answered 400
    with the message of that error, the files after it are not processed,
    and nothing is undone: the world is the one the failed processing
    left, with whatever the earlier files wrote. *)
Theorem createAlert_failure_leaves_partial_work (req : Request)
    (w w1 w2 : World Db) (a b : jsval) (pre post : list UploadedFile)
    (file : UploadedFile) (processed : list jsval) (e : JsError) :
  prop (body req) "coordinates" = JArr [a; b] →
  files req = Some (pre ++ file :: post) →
  processFiles pre [] w = (Returned processed, w1) →
  on_disk (UploadService.processFile file) w1 = (Thrown e, w2) →
  createAlert req w =
    (Returned (failure 400
                 (str_or (message e)
                    "Erreur lors de la création de l'alerte")), w2).
Proof.
  intros Hc Hf Hpre Hfile.
  assert (Hloop : processFiles (pre ++ file :: post) [] w = (Thrown e, w2)).
  { rewrite processFiles_app. unfold bind at 1. rewrite Hpre. simpl.
    unfold bind at 1. rewrite Hfile. reflexivity. }
  destruct (pre ++ file :: post) as [|f fl] eqn:Hfl;
    [destruct pre; discriminate|].
  rewrite (createAlert_files _ _ _ _ _ _ Hc Hf), Hloop. reflexivity.
Qed.

(** [createAlert] reads seven fields of the body and nothing else: setting
    any other field (a citizenId, a status, an id) changes neither the
    answer nor the alert handed to the service. *)
Theorem createAlert_ignores_other_fields (req : Request) (w : World Db)
    (k : string) (v : jsval) :
  k ∉ createAlert_fields →
  createAlert (with_body_field k v req) w = createAlert req w.
Proof.
  intros Hk. unfold createAlert_fields in Hk. set_unfold in Hk.
  assert (Hread : ∀ f, f ∈ createAlert_fields →
            prop (body (with_body_field k v req)) f = prop (body req) f).
  { intros f Hf. unfold prop, with_body_field. cbn [body].
    rewrite lookup_insert_ne; [reflexivity|].
    unfold createAlert_fields in Hf. set_unfold in Hf. naive_solver. }
  unfold createAlert.
  rewrite (Hread "serviceId"), (Hread "category"), (Hread "description"),
    (Hread "coordinates"), (Hread "address"), (Hread "isAnonymous"),
    (Hread "proofs") by (unfold createAlert_fields; set_solver).
  reflexivity.
Qed.

(** The key check of [updateAlertStatus] lets a request through exactly
    when its x-service-key header is a non-empty string equal to the
    configured secret; every other request is answered 401 with the world
    untouched. An empty configured secret therefore authorises nobody. *)
Theorem updateAlertStatus_key_check (req : Request) (w : World Db) :
  updateAlertStatus req w
  = (Returned (failure 401 "Authentification requise"), w)
  ↔ ¬ carries_secret req.
Proof.
  unfold carries_secret. split.
  - intros Hresp (k & Hk & Hheader & Hsecret). revert Hresp.
    unfold updateAlertStatus. cbv zeta. rewrite Hheader, Hsecret.
    apply String.eqb_neq in Hk. simpl. rewrite Hk, String.eqb_refl. simpl.
    destruct (negb _ || negb _); [discriminate|].
    rewrite answered_spec. unfold answered.
    destruct (alertService_updateAlertStatus _ _ _ _ _) as [o db'].
    intros [= _ Hw]. apply (f_equal calls) in Hw. simpl in Hw.
    apply (f_equal length) in Hw. rewrite length_app in Hw. simpl in Hw. lia.
  - intros Hnot. apply updateAlertStatus_unauthorized.
    destruct (headers req !! "x-service-key") as [k|] eqn:Hheader;
      [|reflexivity].
    simpl. destruct (String.eqb k "") eqn:Hk; [reflexivity|].
    apply String.eqb_neq in Hk. simpl.
    destruct SERVICE_API_KEY as [k'|] eqn:Hsecret; [|reflexivity].
    apply negb_true_iff, String.eqb_neq. intros ->.
    apply Hnot. exists k'. done.
Qed.

(** A request that carries the secret: without a truthy [alertId] and a
    truthy [status] it is answered 400 and the service is not called;
    with both, the service is called with the four fields of the body as
    they are, and is answered 200 with what it returns, 400 with the
    message of whatever it throws (an unknown alert included). *)
Theorem updateAlertStatus_authorized (req : Request) (w : World Db) :
  carries_secret req →
  let alertId := prop (body req) "alertId" in
  let status := prop (body req) "status" in
  let comment := prop (body req) "comment" in
  let updatedBy := prop (body req) "updatedBy" in
  (truthy alertId = false ∨ truthy status = false →
   updateAlertStatus req w
   = (Returned (failure 400 "L'ID de l'alerte et le statut sont requis"), w))
  ∧ (truthy alertId = true → truthy status = true →
     updateAlertStatus req w
     = answered (CallUpdateAlertStatus alertId status comment updatedBy)
         (alertService_updateAlertStatus alertId status comment updatedBy)
         updated "Erreur lors de la mise à jour du statut" w).
Proof.
  intros (k & Hk & Hheader & Hsecret) alertId status comment updatedBy.
  apply String.eqb_neq in Hk.
  assert (Hkey : missing (headers req !! "x-service-key")
                 || key_differs (headers req !! "x-service-key")
                      SERVICE_API_KEY = false).
  { rewrite Hheader, Hsecret. simpl. rewrite Hk, String.eqb_refl. done. }
  split.
  - intros Hmissing. unfold updateAlertStatus. cbv zeta. rewrite Hkey.
    fold alertId status.
    replace (negb (truthy alertId) || negb (truthy status)) with true;
      [reflexivity|].
    destruct Hmissing as [-> | ->]; [reflexivity|].
    symmetry. apply orb_true_r.
  - intros Hid Hstatus. unfold updateAlertStatus. cbv zeta. rewrite Hkey.
    fold alertId status comment updatedBy. rewrite Hid, Hstatus.
    apply answered_spec.
Qed.

End controller_more.

(** ** The reading handlers *)

Section query_handlers.
Context {engine : Engine} {Db : Type} {svc : AlertQueryService Db}.

Import AlertControllerQueries.

Lemma replied_spec (c : QueryCall) (m : M Db jsval) (ok : jsval → Response)
    (code : nat) (fallback : string) (s : Session Db) :
  try_catch (let* v := ask c m in ret (ok v))
    (fun error => ret (failure code (str_or (message error) fallback))) s
  = replied c m ok code fallback s.
Proof.
  unfold try_catch, bind, ask, replied, ret.
  destruct (m (store s)) as [[v|e|] db']; reflexivity.
Qed.

(** Without an authenticated user ([req.user] undefined) the three
    handlers do not answer 401: reading [req.user.sub] throws a TypeError
    that their own catch turns into 400 (404 for [getAlertById]) with the
    engine's message; the service is never called, and [addComment]
    reports this before it looks at the text. *)
Theorem handlers_without_user (params : gmap string string) (req : Request)
    (s : Session Db) :
  user req = None →
  getMyAlerts req s =
    (Returned (failure 400
                 (str_or (undefined_read "sub")
                    "Erreur lors de la récupération des alertes")), s)
  ∧ getAlertById params req s =
      (Returned (failure 404
                   (str_or (undefined_read "sub") "Alerte non trouvée")), s)
  ∧ addComment params req s =
      (Returned (failure 400
                   (str_or (undefined_read "sub")
                      "Erreur lors de l'ajout du commentaire")), s).
Proof.
  intros Huser.
  unfold getMyAlerts, getAlertById, addComment, user_sub.
  rewrite Huser. split_and!; reflexivity.
Qed.

(** For an authenticated user, [getMyAlerts] and [getAlertById] call the
    service with the subject of the token (and the id of the route) and
    answer 200 with what it returns; whatever the service throws is
    answered 400 by [getMyAlerts] and 404 by [getAlertById], with the
    message of the error. *)
Theorem reading_handlers (params : gmap string string) (req : Request)
    (u : gmap string jsval) (s : Session Db) :
  user req = Some u →
  getMyAlerts req s =
    replied (CallGetAlertsByCitizen (prop u "sub"))
      (alertService_getAlertsByCitizen (prop u "sub"))
      found 400 "Erreur lors de la récupération des alertes" s
  ∧ getAlertById params req s =
      replied (CallGetAlertById (param_id params) (prop u "sub"))
        (alertService_getAlertById (param_id params) (prop u "sub"))
        found 404 "Alerte non trouvée" s.
Proof.
  intros Huser. unfold getMyAlerts, getAlertById, user_sub. rewrite Huser.
  split.
  - rewrite try_catch_bind. unfold ret at 1. cbv beta iota.
    apply replied_spec.
  - cbv zeta. rewrite try_catch_bind. unfold ret at 1. cbv beta iota.
    apply replied_spec.
Qed.

(** [addComment] for an authenticated user: a text that is absent, empty
    or otherwise falsy is answered 400 "Le texte du commentaire est requis"
    without calling the service; any other text is handed to the service
    as it is, with the id of the route and the subject of the token, and
    what the service throws is answered 400. *)
Theorem addComment_text (params : gmap string string) (req : Request)
    (u : gmap string jsval) (s : Session Db) :
  user req = Some u →
  let text := prop (body req) "text" in
  (truthy text = false →
   addComment params req s =
     (Returned (failure 400 "Le texte du commentaire est requis"), s))
  ∧ (truthy text = true →
     addComment params req s =
       replied (CallAddComment (param_id params) text (prop u "sub"))
         (alertService_addComment (param_id params) text (prop u "sub"))
         commented 400 "Erreur lors de l'ajout du commentaire" s).
Proof.
  intros Huser text. unfold addComment, user_sub. rewrite Huser. cbv zeta.
  fold text. rewrite try_catch_bind. unfold ret at 1. cbv beta iota.
  split; intros ->; [reflexivity|]. apply replied_spec.
Qed.

End query_handlers.

Section query_examples.
Import AlertControllerQueries.

#[local] Existing Instance v8.
#[local] Existing Instance list_service.

Lemma handlers_without_user_witness :
  let req := Fixture.nearby ∅ in
  let s := {| store := [JStr "alerte"]; asked := [] |} in
  getMyAlerts req s =
    (Returned (failure 400
                 "Cannot read properties of undefined (reading 'sub')"), s)
  ∧ getAlertById {[ "id" := "0" ]} req s =
      (Returned (failure 404
                   "Cannot read properties of undefined (reading 'sub')"), s)
  ∧ addComment {[ "id" := "0" ]} req s =
      (Returned (failure 400
                   "Cannot read properties of undefined (reading 'sub')"), s).
Proof.
  intros req s.
  exact (handlers_without_user {[ "id" := "0" ]} req s eq_refl).
Defined.

Lemma reading_handlers_witness :
  let req := Fixture.request ∅ None in
  let s := {| store := [JStr "alerte"]; asked := [] |} in
  getMyAlerts req s =
    (Returned (found (JArr [JStr "alerte"])),
     {| store := [JStr "alerte"];
        asked := [CallGetAlertsByCitizen (JStr "citizen-42")] |})
  ∧ getAlertById {[ "id" := "7" ]} req s =
      (Returned (failure 404 "Alerte non trouvée ou accès refusé"),
       {| store := [JStr "alerte"];
          asked := [CallGetAlertById (JStr "7") (JStr "citizen-42")] |}).
Proof.
  intros req s.
  destruct (reading_handlers {[ "id" := "7" ]} req
              {[ "sub" := JStr "citizen-42" ]} s eq_refl) as [-> ->].
  split; vm_compute; reflexivity.
Defined.

Lemma addComment_text_witness :
  let s := {| store := [JStr "alerte"]; asked := [] |} in
  addComment {[ "id" := "0" ]}
    (Fixture.request {[ "text" := JStr "" ]} None) s
  = (Returned (failure 400 "Le texte du commentaire est requis"), s).
Proof.
  intros s.
  destruct (addComment_text {[ "id" := "0" ]}
              (Fixture.request {[ "text" := JStr "" ]} None)
              {[ "sub" := JStr "citizen-42" ]} s eq_refl) as [Hempty _].
  apply Hempty. vm_compute. reflexivity.
Defined.

End query_examples.

Section controller_more_examples.
Import AlertController.

#[local] Existing Instance Fixture.tools_ok.
#[local] Instance fixture_store
  : AlertService (list SpecAlertService.Alert) :=
  SpecAlertService.service Fixture.flat.

(** The photo is processed, the document is refused: the answer carries
    the message of the refusal and the disk keeps the thumbnail of the
    photo. *)
Lemma createAlert_failure_leaves_partial_work_witness :
  let rt := Fixture.runtime None in
  let req :=
    Fixture.request {[ "coordinates" := Fixture.coords ]}
      (Some [Fixture.photo; Fixture.document]) in
  let w2 := snd (processFiles [Fixture.photo] [] Fixture.world0) in
  createAlert req Fixture.world0 =
    (Returned (failure 400
                 (str_or "Type de fichier non pris en charge"
                    "Erreur lors de la création de l'alerte")), w2).
Proof.
  intros rt req w2.
  apply (createAlert_failure_leaves_partial_work req Fixture.world0 w2 w2
           (JNum 2.35) (JNum 48.85) [Fixture.photo] [] Fixture.document
           [proof_js Fixture.photo_proof]
           (mkError "Type de fichier non pris en charge"));
    vm_compute; reflexivity.
Defined.

Lemma createAlert_ignores_other_fields_witness :
  let rt := Fixture.runtime None in
  let req := Fixture.request {[ "coordinates" := Fixture.coords ]} None in
  createAlert (with_body_field "citizenId" (JStr "citizen-1") req)
    Fixture.world0
  = createAlert req Fixture.world0.
Proof.
  intros rt req.
  apply (createAlert_ignores_other_fields req Fixture.world0).
  unfold createAlert_fields. intros Hk. set_unfold in Hk.
  repeat destruct Hk as [Hk|Hk]; discriminate || done.
Defined.

Lemma updateAlertStatus_authorized_witness :
  let rt := Fixture.runtime (Some Fixture.secret) in
  let req := Fixture.status_update (Some Fixture.secret) in
  updateAlertStatus req Fixture.world0 =
    answered
      (CallUpdateAlertStatus (JStr "0") (JStr "resolved") JUndefined
         JUndefined)
      (alertService_updateAlertStatus (JStr "0") (JStr "resolved")
         JUndefined JUndefined)
      updated "Erreur lors de la mise à jour du statut" Fixture.world0.
Proof.
  intros rt req.
  assert (Hsecret : carries_secret req).
  { exists Fixture.secret. split_and!; [discriminate| |reflexivity].
    vm_compute. reflexivity. }
  destruct (updateAlertStatus_authorized req Fixture.world0 Hsecret)
    as [_ Hvalid].
  exact (Hvalid eq_refl eq_refl).
Defined.

End controller_more_examples.

(** ** Names and edge cases *)

Section names_and_edges.
Context {rt : Runtime} {tools : MediaTools} {Db : Type}
  {svc : AlertService Db}.

Import AlertController UploadService.

(** Whatever directories a URL names, [deleteFile] only aims at files
    called like the last component of the URL, or like its thumbnail:
    the directories of the URL are dropped, the folder is one of the
    service's own. *)
Theorem deleteFile_targets_named (fileUrl : string) :
  plain_name (basename fileUrl) →
  ∀ q, q ∈ deletion_targets fileUrl →
       basename q = basename fileUrl
       ∨ basename q = "thumb_" +:+ basename fileUrl
       ∨ basename q = "thumb_" +:+ basename fileUrl +:+ ".jpg".
Proof.
  intros Hplain q. pose proof Hplain as (_ & Hslash & _).
  assert (Hjpg : plain_name ("thumb_" +:+ basename fileUrl +:+ ".jpg")).
  { split_and!; try discriminate.
    rewrite !has_slash_app, Hslash. reflexivity. }
  pose proof (plain_thumb_name _ Hslash) as Hthumb.
  unfold deletion_targets. cbv zeta.
  destruct (includes fileUrl "/photos/");
    [|destruct (includes fileUrl "/videos/");
      [|destruct (includes fileUrl "/audio/")]];
    intros Hq; set_unfold in Hq.
  - destruct Hq as [->|[->|[]]]; [left|right; left].
    + apply (basename_path_join [__dirname; "../uploads/photos"] _ Hplain).
    + apply (basename_path_join [__dirname; "../uploads/thumbnails"] _ Hthumb).
  - destruct Hq as [->|[->|[]]]; [left|right; right].
    + apply (basename_path_join [__dirname; "../uploads/videos"] _ Hplain).
    + apply (basename_path_join [__dirname; "../uploads/thumbnails"] _ Hjpg).
  - destruct Hq as [->|[]]. left.
    apply (basename_path_join [__dirname; "../uploads/audio"] _ Hplain).
  - destruct Hq.
Qed.

(** A video whose file is not on disk when ffmpeg reports its error: the
    error handler of [processVideo] throws inside the event callback, the
    promise never settles, and a creation that includes the file is never
    answered; the service is not called. *)
Theorem video_missing_file_never_settles (file : UploadedFile) (fs : FS)
    (err : JsError) :
  startsWith (mimetype file) "video/" = true →
  ffmpeg_screenshots fs (path file)
    (path_join [__dirname; "../uploads/thumbnails"])
    ("thumb_" +:+ basename (path file) +:+ ".jpg") = FfError err →
  fs !! path file = None →
  processFile file fs = (Pending, fs) ∧
  ∀ (req : Request) (w : World Db) (a b : jsval)
    (pre post : list UploadedFile) (ps : list Proof),
    prop (body req) "coordinates" = JArr [a; b] →
    files req = Some (pre ++ file :: post) →
    processed_all (disk w) pre ps fs →
    createAlert req w =
      (Pending, {| disk := fs; db := db w; calls := calls w |}).
Proof.
  intros Hm Hff Hnone.
  assert (Hpending : processFile file fs = (Pending, fs)).
  { rewrite (processFile_video _ _ Hm). unfold processVideo. rewrite Hff.
    unfold in_handler, bind, statSync_size. rewrite Hnone. reflexivity. }
  split; [exact Hpending|].
  intros req w a b pre post ps Hc Hf Hpre.
  assert (Hloop : processFiles (pre ++ file :: post) [] w
                  = (Pending, {| disk := fs; db := db w; calls := calls w |})).
  { rewrite processFiles_app. unfold bind at 1.
    rewrite (processFiles_processed _ _ _ [] _ Hpre). simpl.
    unfold bind at 1, on_disk. simpl. rewrite Hpending. reflexivity. }
  destruct (pre ++ file :: post) as [|f fl] eqn:Hfl;
    [destruct pre; discriminate|].
  rewrite (createAlert_files _ _ _ _ _ _ Hc Hf), Hloop. reflexivity.
Qed.

(** With well-formed coordinates and no uploaded file, the alert handed to
    the service is created for the subject of the token, [null] when the
    request has no user (the creation is not refused), and it is anonymous
    exactly when the [isAnonymous] field is the boolean true or the string
    "true". *)
Theorem createAlert_author (req : Request) (w : World Db) (a b : jsval) :
  prop (body req) "coordinates" = JArr [a; b] →
  files req = None →
  ∃ data citizenId,
    calls (snd (createAlert req w))
    = calls w ++ [CallCreateAlert data citizenId]
    ∧ citizenId = match user req with
                  | Some u => prop u "sub"
                  | None => JNull
                  end
    ∧ (isAnonymous data = true
       ↔ prop (body req) "isAnonymous" = JBool true
         ∨ prop (body req) "isAnonymous" = JStr "true").
Proof.
  intros Hc Hf. rewrite (createAlert_no_files _ _ _ _ Hc (or_introl Hf)).
  unfold persisted, answered.
  destruct (alertService_createAlert _ _ _) as [o db'].
  eexists _, _. split_and!; [reflexivity|reflexivity|].
  unfold request_alertData. cbn [isAnonymous].
  destruct (prop (body req) "isAnonymous") as [| |c|n|s|l|o'].
  1,2,4,6,7: split; [discriminate|intros [?|?]; discriminate].
  - split; [intros ->; by left|intros [[= ->]|?]; [reflexivity|discriminate]].
  - split.
    + intros ->%String.eqb_eq. by right.
    + intros [?|[= ->]]; [discriminate|reflexivity].
Qed.

End names_and_edges.

Section names_and_edges_examples.
Import AlertController UploadService.

#[local] Existing Instance Fixture.tools_ffmpeg_error.
#[local] Instance fixture_alerts
  : AlertService (list SpecAlertService.Alert) :=
  SpecAlertService.service Fixture.flat.

(** A URL that climbs out of the folder still names photos/passwd and its
    thumbnail only. *)
Lemma deleteFile_targets_named_witness :
  let rt := Fixture.runtime None in
  basename (path_join [__dirname; "../uploads/photos";
                       basename "/photos/../../../etc/passwd"])
  = "passwd"
  ∨ basename (path_join [__dirname; "../uploads/photos";
                         basename "/photos/../../../etc/passwd"])
    = "thumb_" +:+ "passwd"
  ∨ basename (path_join [__dirname; "../uploads/photos";
                         basename "/photos/../../../etc/passwd"])
    = "thumb_" +:+ "passwd" +:+ ".jpg".
Proof.
  intros rt.
  apply (deleteFile_targets_named "/photos/../../../etc/passwd").
  - repeat split; vm_compute; discriminate || reflexivity.
  - vm_compute. left.
Defined.

(** The video was removed before ffmpeg ran: the creation hangs. *)
Lemma video_missing_file_never_settles_witness :
  let rt := Fixture.runtime None in
  let req :=
    Fixture.request {[ "coordinates" := Fixture.coords ]}
      (Some [Fixture.video]) in
  let fs := delete (path Fixture.video) Fixture.disk0 in
  let w := {| disk := fs; db := []; calls := [] |}
           : World (list SpecAlertService.Alert) in
  processFile Fixture.video fs = (Pending, fs)
  ∧ createAlert req w = (Pending, w).
Proof.
  intros rt req fs w.
  destruct (video_missing_file_never_settles (svc := fixture_alerts)
              Fixture.video fs (mkError "ffmpeg exited with code 1"))
    as [Hfile Hcreate]; [reflexivity|reflexivity|vm_compute; reflexivity|].
  split; [exact Hfile|].
  apply (Hcreate req w (JNum 2.35) (JNum 48.85) [] [] []);
    [vm_compute; reflexivity|reflexivity|apply processed_nil].
Defined.

Lemma createAlert_author_witness :
  let rt := Fixture.runtime None in
  let req :=
    Fixture.request {[ "coordinates" := Fixture.coords;
                       "isAnonymous" := JStr "true" ]} None in
  ∃ data citizenId,
    calls (snd (createAlert req Fixture.world0))
    = calls Fixture.world0 ++ [CallCreateAlert data citizenId]
    ∧ citizenId = JStr "citizen-42"
    ∧ (isAnonymous data = true
       ↔ prop (body req) "isAnonymous" = JBool true
         ∨ prop (body req) "isAnonymous" = JStr "true").
Proof.
  intros rt req.
  exact (createAlert_author req Fixture.world0 (JNum 2.35) (JNum 48.85)
           ltac:(vm_compute; reflexivity) eq_refl).
Defined.

End names_and_edges_examples.
